(** * pkg/server/run.go: the streaming bridge of clicky-serves

    A shallow embedding of the functions of [run.go] that turn the output
    of a tool run into one server-sent-event stream:

    - [dropCR], [scan]: the split function given to [bufio.Scanner];
    - [streamOutput], [processOutputStream]: plain streaming of stdout and
      stderr by two goroutines that share the response writer under a lock;
    - [streamEvents], [processEventStreamOutput]: events mode;
    - [waitAndFinishStream]: the error event and the [DONE] frame;
    - [writeServerSentEvent], [writeError], [setStreamingHeaders].

    Go byte slices are [list ascii], Go strings are [string].  The response
    writer and the logger are traces of the calls made on them.  What the
    Go libraries compute ([json.Marshal], [json.Unmarshal], formatting with
    [%v] and [%q], the clock, whether a [Write] succeeds) is not part of
    this repository: the functions take it as section variables. *)

From Stdlib Require Import String Ascii List Bool Arith ZArith Lia.
From Stdlib Require QArith.
From Stdlib Require Import DecimalString.
Import ListNotations.

Local Open Scope string_scope.
Local Open Scope list_scope.

Notation "x +++ y" := (String.append x y) (at level 60, right associativity).

(** ** Bytes and strings *)

Definition CR : ascii := "013"%char.
Definition LF : ascii := "010"%char.

(** The Go literal ["\n\n"]. *)
Definition nlnl : string := String LF (String LF EmptyString).

(** [string(b)] for a byte slice [b]. *)
Definition Text (b : list ascii) : string := string_of_list_ascii b.

(** [strings.Contains(s, sub)]. *)
Fixpoint Contains (s sub : string) : bool :=
  prefix sub s ||
  match s with
  | EmptyString => false
  | String _ s' => Contains s' sub
  end.

(** ** The split function *)

(** [dropCR]: [data[len(data)-1] == '\r'] is read with [nth], and
    [data[0 : len(data)-1]] is [firstn]. *)
Definition dropCR (data : list ascii) : list ascii :=
  if Nat.ltb 0 (length data) && Ascii.eqb (nth (length data - 1) data Ascii.zero) CR
  then firstn (length data - 1) data
  else data.

(** ** Errors

    The error values that [wait] and the readers can return, with the
    tree that [errors.Is] and [errors.As] walk: an error wraps no error,
    one error ([Unwrap() error]) or several ([Unwrap() []error], as
    [errors.Join] and [fmt.Errorf] with more than one [%w] build). *)
#[warnings="-register-all"] Inductive error : Type :=
| DeadlineExceeded                            (* context.DeadlineExceeded *)
| ExitError (code : Z) (state : string)       (* *exec.ExitError *)
| errorString (msg : string)                  (* errors.New, io errors, ... *)
| wrapError (msg : string) (err : error)      (* fmt.Errorf("... %w", err) *)
| wrapErrors (msg : string) (errs : list error). (* errors.Join, several %w *)

(** [err.Error()]. *)
Definition Error (e : error) : string :=
  match e with
  | DeadlineExceeded => "context deadline exceeded"
  | ExitError _ state => state
  | errorString msg => msg
  | wrapError msg _ => msg
  | wrapErrors msg _ => msg
  end.

(** [errors.Is(err, context.DeadlineExceeded)]: the error itself, then
    what it wraps, depth first; a nil [err] is [None]. *)
Fixpoint Is_chain (e : error) : bool :=
  match e with
  | DeadlineExceeded => true
  | wrapError _ e' => Is_chain e'
  | wrapErrors _ errs => existsb Is_chain errs
  | _ => false
  end.

Definition Is_DeadlineExceeded (err : option error) : bool :=
  match err with
  | None => false
  | Some e => Is_chain e
  end.

(** [errors.As(err, &execErr)] for [execErr *exec.ExitError]: the first
    exit error of the tree, depth first, as [(ExitCode(), String())]. *)
Fixpoint As_chain (e : error) : option (Z * string) :=
  match e with
  | ExitError code state => Some (code, state)
  | wrapError _ e' => As_chain e'
  | wrapErrors _ errs =>
      (fix first (l : list error) : option (Z * string) :=
         match l with
         | [] => None
         | e' :: l' =>
             match As_chain e' with
             | Some found => Some found
             | None => first l'
             end
         end) errs
  | _ => None
  end.

Definition As_ExitError (err : option error) : option (Z * string) :=
  match err with
  | None => None
  | Some e => As_chain e
  end.

(** [scan]: a nil token is [None]. *)
Definition scan (data : list ascii) (atEOF : bool)
  : nat * option (list ascii) * option error :=
  if atEOF && Nat.eqb (length data) 0 then (0, None, None)
  else (length data, Some (dropCR data), None).

(** ** bufio.Scanner

    The part of [bufio.Scanner] that [streamOutput] relies on: [Scan]
    hands the buffered data to the split function, reads more when the
    split function asks for it, and stops at the end of the input.  The
    buffer size limits of the library are left out: [scan] consumes the
    whole buffer at every call, so the buffer never fills up. *)

(** An [io.Reader]: the data of its successive [Read] calls that deliver
    bytes, then the error that ends it ([None] is [io.EOF]). *)
Record Reader : Type := {
  reads : list (list ascii);
  rerr : option error
}.

Definition SplitFunc : Type :=
  list ascii -> bool -> nat * option (list ascii) * option error.

(** [failed] is [s.err != nil]; [buf] is [s.buf[s.start:s.end]]. *)
Record Scanner : Type := {
  src : list (list ascii);
  buf : list ascii;
  failed : bool
}.

Definition NewScanner (r : Reader) : Scanner :=
  {| src := reads r; buf := []; failed := false |}.

Inductive attempt : Type :=
| Token (token : list ascii) (s : Scanner)
| NoToken (s : Scanner)
| Abort (s : Scanner).

(** One call of the split function, followed by [s.advance]. *)
Definition trySplit (split : SplitFunc) (s : Scanner) : attempt :=
  let '(advance, token, err) := split (buf s) (failed s) in
  match err with
  | Some _ => Abort {| src := src s; buf := buf s; failed := true |}
  | None =>
      if Nat.ltb (length (buf s)) advance
      then Abort {| src := src s; buf := buf s; failed := true |}
      else
        let s' := {| src := src s; buf := skipn advance (buf s);
                     failed := failed s |} in
        match token with
        | Some t => Token t s'
        | None => NoToken s'
        end
  end.

(** "Must read more data": read until the split function returns a token
    or the reader ends. *)
Fixpoint readMore (split : SplitFunc) (src : list (list ascii))
    (buf : list ascii) : option (list ascii) * Scanner :=
  match src with
  | [] =>
      match trySplit split {| src := []; buf := buf; failed := true |} with
      | Token t s' => (Some t, s')
      | NoToken s' => (None, {| src := []; buf := []; failed := true |})
      | Abort s' => (None, s')
      end
  | [] :: src' => readMore split src' buf
  | c :: src' =>
      match trySplit split {| src := src'; buf := buf ++ c; failed := false |} with
      | Token t s' => (Some t, s')
      | NoToken s' => readMore split src' (buf ++ c)
      | Abort s' => (None, s')
      end
  end.

(** [s.Scan()]: the token when it returns true. *)
Definition Scan (split : SplitFunc) (s : Scanner)
  : option (list ascii) * Scanner :=
  if Nat.ltb 0 (length (buf s)) || failed s then
    match trySplit split s with
    | Token t s' => (Some t, s')
    | Abort s' => (None, s')
    | NoToken s' =>
        if failed s'
        then (None, {| src := src s'; buf := []; failed := true |})
        else readMore split (src s') (buf s')
    end
  else readMore split (src s) (buf s).

(** [io.ReadAll]. *)
Inductive result (A : Type) : Type :=
| Ok (a : A)
| Err (e : error).
Arguments Ok {A} a.
Arguments Err {A} e.

Definition ReadAll (r : Reader) : result (list ascii) :=
  match rerr r with
  | None => Ok (concat (reads r))
  | Some e => Err e
  end.

(** ** Values

    The Go values that reach [json.Marshal] and [fmt.Sprint]: what
    [json.Unmarshal] stores in a [map[string]any], the timestamps of
    [time.Now], and (since [writeServerSentEvent] takes an [any]) a value
    of a kind that has no JSON encoding.  A [float64] is held as the
    rational it denotes; a map is the list of its entries. *)
#[warnings="-register-all"] Inductive any : Type :=
| VNil
| VBool (b : bool)
| VFloat64 (x : QArith_base.Q)
| VString (s : string)
| VSlice (l : list any)
| VMap (m : list (string * any))
| VTime (t : Z)
| VChan.

Definition MapAny : Type := list (string * any).

(** [m[k]]: the nil interface when the key is absent. *)
Fixpoint index (m : MapAny) (k : string) : any :=
  match m with
  | [] => VNil
  | (k', v) :: m' => if String.eqb k' k then v else index m' k
  end.

(** [v == s] for an interface value [v] and a string [s]: equal dynamic
    types and equal values. *)
Definition eqString (v : any) (s : string) : bool :=
  match v with
  | VString s' => String.eqb s' s
  | _ => false
  end.

(** Whether the dynamic type of [v] is [string]. *)
Definition isString (v : any) : bool :=
  match v with
  | VString _ => true
  | _ => false
  end.

Definition callTypeConfirm : string := "callConfirm".

(** ** The world: response writer, logger, clock *)

Inductive Call : Type :=
| SetHeader (key value : string)
| WriteHeader (code : Z)
| Write (p : string)
| Flush.

Inductive Level : Type := DEBUG | WARN | ERROR.

Record Entry : Type := {
  level : Level;
  msg : string;
  attrs : list (string * string)
}.

(** [resp]: the calls made on [w], oldest first; [logs]: the records
    given to [l]; [ticks]: how many times the clock was read. *)
Record World : Type := {
  resp : list Call;
  logs : list Entry;
  ticks : nat
}.

Definition call (w : World) (c : Call) : World :=
  {| resp := resp w ++ [c]; logs := logs w; ticks := ticks w |}.

Definition log (w : World) (lv : Level) (m : string)
    (a : list (string * string)) : World :=
  {| resp := resp w;
     logs := logs w ++ [{| level := lv; msg := m; attrs := a |}];
     ticks := ticks w |}.

(** The payloads of the [Write] calls of a trace, in order. *)
Fixpoint writes (tr : list Call) : list string :=
  match tr with
  | [] => []
  | Write p :: tr' => p :: writes tr'
  | _ :: tr' => writes tr'
  end.

(** The frame that ends every stream. *)
Definition DONE : string := "data: [DONE]" +++ nlnl.

Definition DQ : string := String "034"%char EmptyString.

(** [%d]. *)
Definition fmt_d (n : Z) : string := NilZero.string_of_int (Z.to_int n).

(** What a goroutine of [processOutputStream] does, one atomic action at
    a time: [Send] is the locked call of [writeServerSentEvent], [Note]
    the logger call that follows it. *)
Inductive Action : Type :=
| Send (event : any)
| Note (lv : Level) (m : string) (a : list (string * string)).

(** The actions of two goroutines in the order a scheduler picks them:
    [true] lets the first one move. *)
Fixpoint interleave (sched : list bool) (xs ys : list Action) : list Action :=
  match sched with
  | [] => xs ++ ys
  | b :: sched' =>
      match xs, ys with
      | [], _ => ys
      | _, [] => xs
      | x :: xs', y :: ys' =>
          if b then x :: interleave sched' xs' ys
          else y :: interleave sched' xs ys'
      end
  end.

(** ** The functions of run.go *)

Section Server.

(** [json.Marshal] and [json.Unmarshal] into a [map[string]any]. *)
Variable Marshal : any -> result string.
Variable Unmarshal : list ascii -> result MapAny.

(** [fmt.Sprint] of an operand that is not a string, and [%q]. *)
Variable Sprintv : any -> string.
Variable Quote : string -> string.

(** [Now n]: what the [n]-th reading of the clock returns. *)
Variable Now : nat -> Z.

(** [Write_fails tr p]: whether [w.Write(p)] returns an error when the
    calls [tr] were made on [w] before; [flusher]: whether [w] is an
    [http.Flusher]. *)
Variable Write_fails : list Call -> string -> bool.
Variable flusher : bool.

(** [fmt.Sprint(v)]: a string operand is printed as it is. *)
Definition Sprint (v : any) : string :=
  match v with
  | VString s => s
  | _ => Sprintv v
  end.

Definition time_Now (w : World) : Z * World :=
  (Now (ticks w),
   {| resp := resp w; logs := logs w; ticks := S (ticks w) |}).

(** [_, err = w.Write(p); if err == nil { flush }]. *)
Definition writeAndFlush (w : World) (p : string) : World :=
  let w' := call w (Write p) in
  if Write_fails (resp w) p then w'
  else if flusher then call w' Flush else w'.

Definition writeServerSentEvent (w : World) (event : any) : World :=
  match Marshal event with
  | Err err => log w WARN "failed to marshal event" [("error", Error err)]
  | Ok ev =>
      let w := writeAndFlush w ("data: " +++ ev +++ nlnl) in
      log w DEBUG "wrote event" [("event", ev)]
  end.

Definition setStreamingHeaders (w : World) : World :=
  let w := call w (SetHeader "Content-Type" "text/event-stream") in
  let w := call w (SetHeader "Cache-Control" "no-cache") in
  call w (SetHeader "Connection" "keep-alive").

Definition writeError (w : World) (code : Z) (err : error) : World :=
  let w := call w (WriteHeader code) in
  let resp := VMap [("error", VString (Error err))] in
  match Marshal resp with
  | Err err =>
      call w (Write ("{" +++ DQ +++ "error" +++ DQ +++ ": " +++ DQ
                       +++ Error err +++ DQ +++ "}"))
  | Ok b => call w (Write b)
  end.

(** The message of the error event of [waitAndFinishStream], empty when
    there is none to send. *)
Definition execErrOutput (stdErr : string) (err : option error) : string :=
  if Is_DeadlineExceeded err then
    "The tool call took too long to complete, aborting"
  else
    match As_ExitError err with
    | Some (code, state) =>
        "The tool call returned an exit code of " +++ fmt_d code
          +++ " with message " +++ Quote state
          +++ " and output " +++ Quote stdErr
    | None =>
        match err with
        | Some e =>
            "failed to wait: " +++ Error e +++ ", error output: " +++ stdErr
        | None => ""
        end
    end.

(** [waitAndFinishStream]: [wait] is called on the world as it is when
    the function starts. *)
Definition waitAndFinishStream (w : World) (stdErr : string)
    (wait : World -> option error) : World :=
  let err := wait w in
  let execErrOutput := execErrOutput stdErr err in
  let w :=
    if negb (String.eqb execErrOutput "") then
      let '(t, w) := time_Now w in
      writeServerSentEvent w
        (VMap [("time", VTime t); ("err", VString execErrOutput)])
    else w in
  let w := writeAndFlush w DONE in
  log w DEBUG "wrote DONE event" [].

(** One action of a goroutine, and a run of them. *)
Definition exec (w : World) (a : Action) : World :=
  match a with
  | Send event => writeServerSentEvent w event
  | Note lv m a => log w lv m a
  end.

Definition run (acts : list Action) (w : World) : World :=
  fold_left exec acts w.

(** The loop of [streamOutput], as the actions it takes.  [fuel] bounds
    the number of calls of [s.Scan()]; [None] is a loop cut short. *)
Fixpoint streamOutput_loop (fuel : nat) (s : Scanner) (key : string)
  : option (list Action) :=
  match fuel with
  | O => None
  | S fuel' =>
      match Scan scan s with
      | (None, _) => Some []
      | (Some bytes, s') =>
          match streamOutput_loop fuel' s' key with
          | None => None
          | Some rest =>
              if Nat.eqb (length bytes) 0 then Some rest
              else
                Some (Send (VMap [(key, VString (Text bytes))])
                      :: Note DEBUG "wrote event"
                           [("event", Text bytes); ("key", key)]
                      :: rest)
          end
      end
  end.

(** Every call of [s.Scan()] but the last consumes a chunk of the
    stream, so one more than their number is fuel enough. *)
Definition streamOutput (stream : Reader) (key : string)
  : option (list Action) :=
  streamOutput_loop (S (length (reads stream))) (NewScanner stream) key.

(** [processOutputStream]: the two goroutines run under the schedule
    [sched]; the [wait] given to [waitAndFinishStream] first joins them
    ([wg.Wait()]). *)
Definition processOutputStream (sched : list bool) (w : World)
    (stdout stderr : Reader) (wait : World -> option error)
  : option World :=
  let w := setStreamingHeaders w in
  match streamOutput stdout "stdout", streamOutput stderr "stderr" with
  | Some out, Some err =>
      Some (waitAndFinishStream (run (interleave sched out err) w) "" wait)
  | _, _ => None
  end.

(** The loop of [streamEvents] over the tokens of [buffer.Scan()]. *)
Fixpoint streamEvents_loop (events : list (list ascii))
    (lastRunID : string) (eventBuffer : list MapAny) (w : World)
  : string * list MapAny * World :=
  match events with
  | [] => (lastRunID, eventBuffer, w)
  | bytes :: rest =>
      if Nat.eqb (length bytes) 0 then
        streamEvents_loop rest lastRunID eventBuffer w
      else
        match Unmarshal bytes with
        | Err err =>
            streamEvents_loop rest lastRunID eventBuffer
              (log w ERROR "failed to unmarshal event"
                 [("error", Error err); ("event", Text bytes)])
        | Ok e =>
            if (Nat.ltb 0 (length eventBuffer)
                || eqString (index e "type") callTypeConfirm)
               && negb (eqString (index e "runID") lastRunID)
            then
              streamEvents_loop rest (Sprint (index e "runID"))
                (eventBuffer ++ [e]) w
            else
              let w :=
                fold_left (fun w ev => writeServerSentEvent w (VMap ev))
                  eventBuffer w in
              streamEvents_loop rest (Sprint (index e "runID")) []
                (writeServerSentEvent w (VMap e))
        end
  end.

(** [streamEvents]: [events] are the lines that the scanner over the
    event stream returns.  The buffer and [lastRunID] are locals: they
    are dropped when the loop ends. *)
Definition streamEvents (w : World) (events : list (list ascii)) : World :=
  let w := log w DEBUG "receiving events" [] in
  let '(_, _, w) := streamEvents_loop events "" [] w in
  log w DEBUG "done receiving events" [].

Definition processEventStreamOutput (w : World) (stdout stderr : Reader)
    (events : list (list ascii)) (wait : World -> option error) : World :=
  let w := setStreamingHeaders w in
  let w := streamEvents w events in
  match ReadAll stdout with
  | Err err =>
      writeError w 500
        (wrapError ("failed to read stdout: " +++ Error err) err)
  | Ok out =>
      match ReadAll stderr with
      | Err err =>
          writeError w 500
            (wrapError ("failed to read stderr: " +++ Error err) err)
      | Ok stdErr =>
          let '(t, w) := time_Now w in
          let w := writeServerSentEvent w
                     (VMap [("time", VTime t);
                            ("stderr", VString (Text stdErr))]) in
          let '(t, w) := time_Now w in
          let w := writeServerSentEvent w
                     (VMap [("time", VTime t);
                            ("stdout", VString (Text out))]) in
          waitAndFinishStream w (Text stdErr) wait
      end
  end.

(** [processEventStreamOutput] once more, with readers that are read at
    a point in time: [stdout w] is what [io.ReadAll(stdout)] meets when
    it is called in the world [w].  The function above is the case of
    readers whose content does not depend on that world. *)
Definition processEventStreamOutputAt (w : World)
    (stdout stderr : World -> Reader)
    (events : list (list ascii)) (wait : World -> option error) : World :=
  let w := setStreamingHeaders w in
  let w := streamEvents w events in
  match ReadAll (stdout w) with
  | Err err =>
      writeError w 500
        (wrapError ("failed to read stdout: " +++ Error err) err)
  | Ok out =>
      match ReadAll (stderr w) with
      | Err err =>
          writeError w 500
            (wrapError ("failed to read stderr: " +++ Error err) err)
      | Ok stdErr =>
          let '(t, w) := time_Now w in
          let w := writeServerSentEvent w
                     (VMap [("time", VTime t);
                            ("stderr", VString (Text stdErr))]) in
          let '(t, w) := time_Now w in
          let w := writeServerSentEvent w
                     (VMap [("time", VTime t);
                            ("stdout", VString (Text out))]) in
          waitAndFinishStream w (Text stdErr) wait
      end
  end.

(** *** Reading the traces *)

(** What [writeServerSentEvent] writes for an event: one frame, or
    nothing when the event has no encoding. *)
Definition sse (event : any) : list string :=
  match Marshal event with
  | Ok ev => ["data: " +++ ev +++ nlnl]
  | Err _ => []
  end.

Definition sent (a : Action) : list string :=
  match a with
  | Send event => sse event
  | Note _ _ _ => []
  end.

(** The events of a list of lines: the lines that are not empty and
    that decode. *)
Fixpoint decoded (events : list (list ascii)) : list MapAny :=
  match events with
  | [] => []
  | bytes :: rest =>
      if Nat.eqb (length bytes) 0 then decoded rest
      else
        match Unmarshal bytes with
        | Ok e => e :: decoded rest
        | Err _ => decoded rest
        end
  end.

(** The text of the run identifier of an event, as the loop stores it. *)
Definition runIDText (e : MapAny) : string := Sprint (index e "runID").

End Server.

(** *** Frames of a stream *)

Definition nonempty (b : list ascii) : bool := negb (Nat.eqb (length b) 0).

(** The actions [streamOutput] takes for one frame. *)
Definition relay (key : string) (frame : list ascii) : list Action :=
  [Send (VMap [(key, VString (Text frame))]);
   Note DEBUG "wrote event" [("event", Text frame); ("key", key)]].

(** The frames expected from the chunks of a stream. *)
Definition frames (chunks : list (list ascii)) : list (list ascii) :=
  filter nonempty (map dropCR (filter nonempty chunks)).

(** A chunk with a single trailing carriage return stripped, written
    after the words of the specification and not after [dropCR]: the
    bytes are kept one by one, and the last one is left out if it is a
    carriage return. *)
Fixpoint stripCR (chunk : list ascii) : list ascii :=
  match chunk with
  | [] => []
  | c :: rest =>
      match rest with
      | [] => if Ascii.eqb c CR then [] else [c]
      | _ :: _ => c :: stripCR rest
      end
  end.

(** The frames that the specification expects from the chunks of a
    stream: the chunks that hold bytes, stripped, those left empty
    dropped. *)
Definition strippedFrames (chunks : list (list ascii)) : list (list ascii) :=
  filter nonempty (map stripCR (filter nonempty chunks)).

(** ** The handlers

    The collaborators of the [gptscript] package are section variables:
    each is the function from its arguments (the context left out) to
    what the Go call returns.  The nodes of a parsed file are the value
    that [json.Marshal] is given. *)

Section Handlers.

Variable Marshal : any -> result string.
Variable Unmarshal : list ascii -> result MapAny.
Variable Sprintv : any -> string.
Variable Quote : string -> string.
Variable Now : nat -> Z.
Variable Write_fails : list Call -> string -> bool.
Variable flusher : bool.

Variable Opts Tool : Type.
Variable ParseTool : string -> result any.
Variable Parse : string -> Opts -> result any.
Variable ExecTool : Opts -> Tool -> result string.
Variable ExecFile : string -> string -> Opts -> result string.
Variable StreamExecTool :
  Opts -> Tool -> Reader * Reader * (World -> option error).
Variable StreamExecFile :
  string -> string -> Opts -> Reader * Reader * (World -> option error).
Variable StreamExecToolWithEvents :
  Opts -> Tool -> Reader * Reader * list (list ascii) * (World -> option error).
Variable StreamExecFileWithEvents :
  string -> string -> Opts
  -> Reader * Reader * list (list ascii) * (World -> option error).

Definition writeResponse (w : World) (v : any) : World :=
  match Marshal v with
  | Err err =>
      writeError Marshal w 500
        (wrapError ("failed to marshal response: " +++ Error err) err)
  | Ok b => call w (Write b)
  end.

Definition parse (w : World) (opts : Opts) (path input : string) : World :=
  let w := log w DEBUG "parsing file" [("file", path); ("input", input)] in
  let r :=
    if negb (String.eqb input "") then ParseTool input
    else Parse path opts in
  match r with
  | Err err =>
      let w := log w ERROR "failed to parse file" [("error", Error err)] in
      writeError Marshal w 500
        (wrapError ("failed to parse file: " +++ Error err) err)
  | Ok out => writeResponse w (VMap [("stdout", VMap [("nodes", out)])])
  end.

Definition execTool (w : World) (opts : Opts) (tool : Tool) : World :=
  match ExecTool opts tool with
  | Err err =>
      let w := log w ERROR "failed to execute tool" [("error", Error err)] in
      writeError Marshal w 500
        (wrapError ("failed to execute tool: " +++ Error err) err)
  | Ok out => writeResponse w (VMap [("stdout", VString out)])
  end.

Definition execFile (w : World) (opts : Opts) (path input : string) : World :=
  match ExecFile path input opts with
  | Err err =>
      let w := log w ERROR "failed to execute file" [("error", Error err)] in
      writeError Marshal w 500
        (wrapError ("failed to execute file: " +++ Error err) err)
  | Ok out => writeResponse w (VMap [("stdout", VString out)])
  end.

Definition execToolStream (sched : list bool) (w : World) (opts : Opts)
    (tool : Tool) : option World :=
  let '(stdout, stderr, wait) := StreamExecTool opts tool in
  processOutputStream Marshal Quote Now Write_fails flusher
    sched w stdout stderr wait.

Definition execFileStream (sched : list bool) (w : World) (opts : Opts)
    (path input : string) : option World :=
  let '(stdout, stderr, wait) := StreamExecFile path input opts in
  processOutputStream Marshal Quote Now Write_fails flusher
    sched w stdout stderr wait.

Definition execToolStreamWithEvents (w : World) (opts : Opts) (tool : Tool)
  : World :=
  let '(stdout, stderr, events, wait) := StreamExecToolWithEvents opts tool in
  processEventStreamOutput Marshal Unmarshal Sprintv Quote Now Write_fails
    flusher w stdout stderr events wait.

Definition execFileStreamWithEvents (w : World) (opts : Opts)
    (path input : string) : World :=
  let '(stdout, stderr, events, wait) :=
    StreamExecFileWithEvents path input opts in
  processEventStreamOutput Marshal Unmarshal Sprintv Quote Now Write_fails
    flusher w stdout stderr events wait.

(** *** Reading the traces of the handlers *)

(** The calls of [setStreamingHeaders]. *)
Definition headers : list Call :=
  [SetHeader "Content-Type" "text/event-stream";
   SetHeader "Cache-Control" "no-cache";
   SetHeader "Connection" "keep-alive"].

(** A call that sends or flushes body bytes. *)
Definition isBody (c : Call) : bool :=
  match c with
  | Write _ | Flush => true
  | _ => false
  end.

(** The calls made on a writer that has seen [tr] when the payloads [ps]
    are written one after the other, each flushed if it can be. *)
Fixpoint written (tr : list Call) (ps : list string) : list Call :=
  match ps with
  | [] => []
  | p :: ps' =>
      let seg :=
        Write p :: (if Write_fails tr p then []
                    else if flusher then [Flush] else []) in
      seg ++ written (tr ++ seg) ps'
  end.

(** Sending a list of events, as the loop of [streamEvents] does with its
    buffer. *)
Definition sendAll (es : list MapAny) (w : World) : World :=
  fold_left
    (fun w ev => writeServerSentEvent Marshal Write_fails flusher w (VMap ev))
    es w.

(** Whether an event is of the confirm type. *)
Definition isConfirm (e : MapAny) : bool :=
  eqString (index e "type") callTypeConfirm.

(** What the loop of [streamEvents] decides on decoded events alone: the
    events it sends, in order, then [lastRunID] and the buffer it is
    left with. *)
Fixpoint reorder (es : list MapAny) (lastRunID : string)
    (eventBuffer : list MapAny) : list MapAny * (string * list MapAny) :=
  match es with
  | [] => ([], (lastRunID, eventBuffer))
  | e :: rest =>
      if (Nat.ltb 0 (length eventBuffer) || isConfirm e)
         && negb (eqString (index e "runID") lastRunID)
      then reorder rest (Sprint Sprintv (index e "runID")) (eventBuffer ++ [e])
      else
        let '(sent, st) := reorder rest (Sprint Sprintv (index e "runID")) [] in
        (eventBuffer ++ e :: sent, st)
  end.

(** Whether each event of a list carries a run identifier other than
    the text stored for the event before it, starting from [lastRunID]. *)
Fixpoint changesRun (lastRunID : string) (es : list MapAny) : bool :=
  match es with
  | [] => true
  | e :: rest =>
      negb (eqString (index e "runID") lastRunID)
      && changesRun (Sprint Sprintv (index e "runID")) rest
  end.

End Handlers.

(** Whether an action of [streamOutput] belongs to the stream [key]. *)
Definition fromStream (key : string) (a : Action) : bool :=
  match a with
  | Send (VMap ((k, _) :: _)) => String.eqb k key
  | Note _ _ (_ :: (_, k) :: _) => String.eqb k key
  | _ => false
  end.

(** The calls for a payload that is written and flushed. *)
Definition flushed (p : string) : list Call := [Write p; Flush].

(** ** Sample collaborators and inputs

    Total functions that stand for the Go libraries in the worked
    examples.  [Sample.Marshal] writes JSON text for nil, booleans,
    integral numbers, strings that need no escape, slices and maps, and
    fails on a channel, as [encoding/json] does; a map keeps the order of
    its entries, a number that is not integral is written as a fraction
    and a timestamp as its number of ticks, which no example relies on.
    [Sample.Unmarshal] decodes a line by looking it up among the encodings
    of [Sample.corpus]. *)
Module Sample.

Definition join (sep : string) (parts : list string) : string :=
  String.concat sep parts.

Definition number (x : QArith_base.Q) : string :=
  match QArith_base.Qden x with
  | xH => fmt_d (QArith_base.Qnum x)
  | d => fmt_d (QArith_base.Qnum x) +++ "/" +++ fmt_d (Zpos d)
  end.

Definition all (rs : list (result string)) : result (list string) :=
  fold_right
    (fun r acc =>
       match r, acc with
       | Ok a, Ok l => Ok (a :: l)
       | Err e, _ => Err e
       | _, Err e => Err e
       end) (Ok []) rs.

Fixpoint Marshal (v : any) : result string :=
  match v with
  | VNil => Ok "null"
  | VBool true => Ok "true"
  | VBool false => Ok "false"
  | VFloat64 x => Ok (number x)
  | VString s => Ok (DQ +++ s +++ DQ)
  | VSlice l =>
      match all (map Marshal l) with
      | Ok parts => Ok ("[" +++ join "," parts +++ "]")
      | Err e => Err e
      end
  | VMap m =>
      match all (map (fun kv =>
                        match Marshal (snd kv) with
                        | Ok b => Ok (DQ +++ fst kv +++ DQ +++ ":" +++ b)
                        | Err e => Err e
                        end) m) with
      | Ok parts => Ok ("{" +++ join "," parts +++ "}")
      | Err e => Err e
      end
  | VTime t => Ok (DQ +++ fmt_d t +++ DQ)
  | VChan => Err (errorString "json: unsupported type: chan int")
  end.

Definition Sprintv (v : any) : string :=
  match v with
  | VNil => "<nil>"
  | VBool true => "true"
  | VBool false => "false"
  | VFloat64 x => number x
  | VString s => s
  | _ => match Marshal v with Ok b => b | Err _ => "?" end
  end.

Definition Quote (s : string) : string := DQ +++ s +++ DQ.

Definition Now (n : nat) : Z := 1700000000 + Z.of_nat n.

Definition Write_fails (tr : list Call) (p : string) : bool := false.

Definition flusher : bool := true.

Definition num (n : Z) : any := VFloat64 (QArith_base.Qmake n 1).

(** The three events of the worked example of the reorderer, with
    numbers and with strings as run identifiers. *)
Definition n1 : MapAny := [("runID", num 1); ("type", VString "x")].
Definition n2 : MapAny := [("runID", num 1); ("type", VString "callConfirm")].
Definition n3 : MapAny := [("runID", num 2); ("type", VString "y")].

Definition s1 : MapAny := [("runID", VString "1"); ("type", VString "x")].
Definition s2 : MapAny :=
  [("runID", VString "1"); ("type", VString "callConfirm")].
Definition s3 : MapAny := [("runID", VString "2"); ("type", VString "y")].

Definition corpus : list MapAny := [n1; n2; n3; s1; s2; s3].

Definition encode (e : MapAny) : string :=
  match Marshal (VMap e) with
  | Ok b => b
  | Err _ => ""
  end.

Definition line (e : MapAny) : list ascii := list_ascii_of_string (encode e).

Definition Unmarshal (bytes : list ascii) : result MapAny :=
  match find (fun e => String.eqb (encode e) (Text bytes)) corpus with
  | Some e => Ok e
  | None => Err (errorString "invalid character looking for beginning of value")
  end.

Definition world0 : World := {| resp := []; logs := []; ticks := 0 |}.

Definition frame (e : MapAny) : string := "data: " +++ encode e +++ nlnl.

Definition bytes (s : string) : list ascii := list_ascii_of_string s.

(** Results of [wait], and readers. *)
Definition timeout (w : World) : option error :=
  Some (wrapError "wait: context deadline exceeded" DeadlineExceeded).
Definition success (w : World) : option error := None.

Definition out : Reader :=
  {| reads := [bytes "hello"; bytes "world" ++ [CR]]; rerr := None |}.
Definition errs : Reader := {| reads := [bytes "warn"]; rerr := None |}.
Definition broken : Reader :=
  {| reads := [bytes "hel"];
     rerr := Some (errorString "read |0: file already closed") |}.

Definition writeServerSentEvent :=
  writeServerSentEvent Marshal Write_fails flusher.
Definition streamEvents_loop :=
  streamEvents_loop Marshal Unmarshal Sprintv Write_fails flusher.
Definition streamEvents :=
  streamEvents Marshal Unmarshal Sprintv Write_fails flusher.
Definition waitAndFinishStream :=
  waitAndFinishStream Marshal Quote Now Write_fails flusher.
Definition processOutputStream :=
  processOutputStream Marshal Quote Now Write_fails flusher.
Definition processEventStreamOutput :=
  processEventStreamOutput Marshal Unmarshal Sprintv Quote Now
    Write_fails flusher.

(** Collaborators of the handlers: a tool is its text, the empty text
    cannot run; a file is run or parsed if its path is not empty. *)
Definition Opts : Type := unit.
Definition Tool : Type := string.

Definition ExecTool (opts : Opts) (tool : Tool) : result string :=
  if String.eqb tool "" then Err (errorString "exit status 1")
  else Ok ("ran " +++ tool).

Definition ExecFile (path input : string) (opts : Opts) : result string :=
  if String.eqb path "" then Err (errorString "open : no such file or directory")
  else Ok ("ran " +++ path +++ " " +++ input).

Definition ParseTool (input : string) : result any :=
  Ok (VSlice [VMap [("toolNode", VString input)]]).

Definition Parse (path : string) (opts : Opts) : result any :=
  if String.eqb path "" then Err (errorString "open : no such file or directory")
  else Ok (VSlice [VMap [("textNode", VString path)]]).

Definition exitError (w : World) : option error :=
  Some (wrapError "run: exit status 2" (ExitError 2 "exit status 2")).
Definition joinedError (w : World) : option error :=
  Some (wrapErrors "context deadline exceeded; exit status 2"
          [DeadlineExceeded; ExitError 2 "exit status 2"]).
Definition waitError (w : World) : option error :=
  Some (errorString "signal: killed").

Definition badErrs : Reader :=
  {| reads := [bytes "wa"];
     rerr := Some (errorString "read |0: file already closed") |}.

Definition sendAll := sendAll Marshal Write_fails flusher.
Definition processEventStreamOutputAt :=
  processEventStreamOutputAt Marshal Unmarshal Sprintv Quote Now
    Write_fails flusher.
Definition writeResponse := writeResponse Marshal.
Definition parse := parse Marshal Opts ParseTool Parse.
Definition execTool := execTool Marshal Opts Tool ExecTool.
Definition execFile := execFile Marshal Opts ExecFile.


End Sample.

(** ** Properties of the line framer *)

Lemma dropCR_snoc (data : list ascii) : dropCR (data ++ [CR]) = data.
Proof.
  unfold dropCR.
  rewrite length_app; simpl.
  replace (length data + 1 - 1) with (length data) by lia.
  rewrite app_nth2 by lia.
  rewrite Nat.sub_diag; simpl.
  replace (Nat.ltb 0 (length data + 1)) with true
    by (symmetry; apply Nat.ltb_lt; lia).
  simpl.
  rewrite firstn_app, Nat.sub_diag, firstn_all; simpl.
  apply app_nil_r.
Qed.

Lemma dropCR_length (data : list ascii) :
  length data - 1 <= length (dropCR data) <= length data.
Proof.
  unfold dropCR.
  destruct (Nat.ltb 0 (length data)
            && Ascii.eqb (nth (length data - 1) data Ascii.zero) CR).
  - rewrite length_firstn. lia.
  - lia.
Qed.

Lemma trySplit_scan_chunk (c : list ascii) (rest : list (list ascii)) :
  c <> [] ->
  trySplit scan {| src := rest; buf := c; failed := false |}
  = Token (dropCR c) {| src := rest; buf := []; failed := false |}.
Proof.
  intros Hc. unfold trySplit, scan; simpl.
  rewrite Nat.ltb_irrefl, skipn_all. reflexivity.
Qed.

Lemma Scan_scan_fresh (chunks : list (list ascii)) :
  Scan scan {| src := chunks; buf := []; failed := false |}
  = readMore scan chunks [].
Proof. reflexivity. Qed.

Lemma streamOutput_loop_scan (key : string) (chunks : list (list ascii)) :
  forall fuel, length chunks < fuel ->
  streamOutput_loop fuel {| src := chunks; buf := []; failed := false |} key
  = Some (flat_map (relay key) (frames chunks)).
Proof.
  induction chunks as [|c rest IH]; intros fuel Hfuel.
  - destruct fuel as [|fuel]; [inversion Hfuel|]. reflexivity.
  - destruct fuel as [|fuel]; [inversion Hfuel|].
    simpl in Hfuel.
    destruct c as [|a c].
    + change (streamOutput_loop (S fuel)
                {| src := [] :: rest; buf := []; failed := false |} key)
        with (streamOutput_loop (S fuel)
                {| src := rest; buf := []; failed := false |} key).
      rewrite IH by lia. reflexivity.
    + cbn [streamOutput_loop]. rewrite Scan_scan_fresh.
      cbn [readMore app].
      rewrite trySplit_scan_chunk by discriminate.
      rewrite IH by lia.
      unfold frames. cbn [filter nonempty length Nat.eqb negb map].
      fold (frames rest).
      destruct (dropCR (a :: c)) as [|b d] eqn:Hd; reflexivity.
Qed.

Lemma Text_nil (b : list ascii) : Text b = "" -> b = [].
Proof. destruct b; [reflexivity | discriminate]. Qed.

Lemma nonempty_true (b : list ascii) : nonempty b = true <-> b <> [].
Proof. destruct b; cbn; split; congruence. Qed.

Lemma streamOutput_frames (stream : Reader) (key : string) :
  streamOutput stream key
  = Some (flat_map (relay key) (frames (reads stream))).
Proof.
  unfold streamOutput, NewScanner. apply streamOutput_loop_scan. lia.
Qed.

Lemma stripCR_snoc (d : list ascii) (a : ascii) :
  stripCR (d ++ [a]) = d ++ stripCR [a].
Proof.
  induction d as [|x d IH]; [reflexivity|].
  destruct d as [|y d]; [reflexivity|].
  change (stripCR ((x :: y :: d) ++ [a]))
    with (x :: stripCR ((y :: d) ++ [a])).
  rewrite IH. reflexivity.
Qed.

Lemma dropCR_stripCR (data : list ascii) : dropCR data = stripCR data.
Proof.
  induction data as [|a d _] using rev_ind; [reflexivity|].
  rewrite stripCR_snoc. cbn [stripCR].
  destruct (Ascii.eqb a CR) eqn:Ha.
  - apply Ascii.eqb_eq in Ha. subst a. rewrite app_nil_r. apply dropCR_snoc.
  - unfold dropCR. rewrite length_app. simpl.
    replace (length d + 1 - 1) with (length d) by lia.
    rewrite app_nth2 by lia. rewrite Nat.sub_diag. simpl.
    rewrite Ha, andb_false_r. reflexivity.
Qed.

Lemma frames_stripped (chunks : list (list ascii)) :
  frames chunks = strippedFrames chunks.
Proof.
  unfold frames, strippedFrames. f_equal. apply map_ext, dropCR_stripCR.
Qed.

Lemma stripCR_cases (chunk : list ascii) :
  chunk = stripCR chunk ++ [CR]
  \/ (stripCR chunk = chunk /\ forall d, chunk <> d ++ [CR]).
Proof.
  induction chunk as [|a d _] using rev_ind.
  - right. split; [reflexivity | intros [|? ?]; discriminate].
  - rewrite stripCR_snoc. cbn [stripCR].
    destruct (Ascii.eqb a CR) eqn:Ha.
    + apply Ascii.eqb_eq in Ha. subst a. left. now rewrite app_nil_r.
    + right. split; [reflexivity|].
      intros d' H. apply app_inj_tail in H. destruct H as [_ H].
      subst a. now rewrite Ascii.eqb_refl in Ha.
Qed.

(** C5. For every stream, [streamOutput] returns, and what it sends is,
    in order, one event per chunk that holds bytes and still holds some
    once a single trailing carriage return is stripped; the text of the
    event is the chunk without that carriage return: the chunk is the
    text followed by a carriage return, or it is the text itself and
    does not end in one.  No frame sent has an empty text, and every
    frame comes from a chunk that held bytes; a stream without chunks
    sends nothing. *)
Theorem C5_line_framer (stream : Reader) (key : string) :
  streamOutput stream key
  = Some (flat_map (relay key) (strippedFrames (reads stream)))
  /\ Forall (fun f => Text f <> ""
                      /\ exists chunk,
                           In chunk (reads stream) /\ chunk <> []
                           /\ (chunk = f ++ [CR]
                               \/ (f = chunk /\ forall d, chunk <> d ++ [CR])))
       (strippedFrames (reads stream))
  /\ (reads stream = [] -> streamOutput stream key = Some []).
Proof.
  split; [|split].
  - rewrite streamOutput_frames, frames_stripped. reflexivity.
  - apply Forall_forall. intros f Hf. unfold strippedFrames in Hf.
    apply filter_In in Hf. destruct Hf as [Hin Hne].
    apply in_map_iff in Hin. destruct Hin as [chunk [Heq Hchunk]].
    apply filter_In in Hchunk. destruct Hchunk as [Hin Hc].
    split.
    + intros Ht. apply Text_nil in Ht. apply nonempty_true in Hne. auto.
    + exists chunk. apply nonempty_true in Hc.
      split; [exact Hin|]. split; [exact Hc|]. subst f.
      apply stripCR_cases.
  - intros H. rewrite streamOutput_frames, H. reflexivity.
Qed.

(** C10. [dropCR] removes one trailing carriage return and no more: a
    chunk that ends in two keeps one, so ["a\r\r"] is sent as ["a\r"];
    a chunk that is one carriage return becomes empty and nothing is sent
    for it. *)
Theorem C10_dropCR_at_most_one :
  (forall data, dropCR (data ++ [CR; CR]) = data ++ [CR])
  /\ (forall data, length data - 1 <= length (dropCR data))
  /\ dropCR ["a"%char; CR; CR] = ["a"%char; CR]
  /\ (forall rerr key,
        streamOutput {| reads := [["a"%char; CR; CR]]; rerr := rerr |} key
        = Some (relay key ["a"%char; CR]))
  /\ dropCR [CR] = []
  /\ (forall rerr key,
        streamOutput {| reads := [[CR]]; rerr := rerr |} key = Some []).
Proof.
  repeat split.
  - intros data.
    change (data ++ [CR; CR]) with (data ++ [CR] ++ [CR]).
    rewrite app_assoc. apply dropCR_snoc.
  - intros data. apply dropCR_length.
Qed.

(** ** Properties of the emitter and of the finalizer *)

Lemma length_append (a b : string) :
  String.length (a +++ b) = String.length a + String.length b.
Proof. induction a as [|c a IH]; simpl; [reflexivity | now rewrite IH]. Qed.

Lemma append_inj_r (c a b : string) : a +++ c = b +++ c -> a = b.
Proof.
  revert b. induction a as [|x a IH]; intros [|y b] H; simpl in H.
  - reflexivity.
  - apply (f_equal String.length) in H. simpl in H.
    rewrite length_append in H. lia.
  - apply (f_equal String.length) in H. simpl in H.
    rewrite length_append in H. lia.
  - injection H as Hx Hab. subst y. f_equal. now apply IH.
Qed.

Lemma writes_app (a b : list Call) : writes (a ++ b) = writes a ++ writes b.
Proof.
  induction a as [|c a IH]; simpl; [reflexivity|].
  destruct c; simpl; now rewrite IH.
Qed.

Lemma interleave_In (a : Action) (sched : list bool) :
  forall xs ys, In a (interleave sched xs ys) -> In a xs \/ In a ys.
Proof.
  induction sched as [|b sched IH]; intros xs ys H; simpl in H.
  - apply in_app_or in H. exact H.
  - destruct xs as [|x xs]; [now right|].
    destruct ys as [|y ys]; [now left|].
    destruct b; simpl in H; destruct H as [H|H].
    + left. now left.
    + apply IH in H. destruct H as [H|H]; [left; now right | now right].
    + right. now left.
    + apply IH in H. destruct H as [H|H]; [now left | right; now right].
Qed.

Section Properties.

Variable Marshal : any -> result string.
Variable Unmarshal : list ascii -> result MapAny.
Variable Sprintv : any -> string.
Variable Quote : string -> string.
Variable Now : nat -> Z.
Variable Write_fails : list Call -> string -> bool.
Variable flusher : bool.

Local Abbreviation emit := (writeServerSentEvent Marshal Write_fails flusher).
Local Abbreviation flush := (writeAndFlush Write_fails flusher).
Local Abbreviation finish :=
  (waitAndFinishStream Marshal Quote Now Write_fails flusher).
Local Abbreviation go := (run Marshal Write_fails flusher).
Local Abbreviation loop :=
  (streamEvents_loop Marshal Unmarshal Sprintv Write_fails flusher).
Local Abbreviation frame := (sse Marshal).

Lemma resp_log w lv m a : resp (log w lv m a) = resp w.
Proof. reflexivity. Qed.

Lemma writes_flush w p :
  writes (resp (flush w p)) = writes (resp w) ++ [p].
Proof.
  unfold writeAndFlush.
  destruct (Write_fails (resp w) p); [|destruct flusher];
    simpl; repeat rewrite writes_app; simpl;
    rewrite <- ?app_assoc; reflexivity.
Qed.

Lemma ticks_flush w p : ticks (flush w p) = ticks w.
Proof.
  unfold writeAndFlush.
  destruct (Write_fails (resp w) p); [|destruct flusher]; reflexivity.
Qed.

Lemma writes_emit w event :
  writes (resp (emit w event)) = writes (resp w) ++ frame event.
Proof.
  unfold writeServerSentEvent, sse.
  destruct (Marshal event) as [ev|err].
  - rewrite resp_log. apply writes_flush.
  - rewrite resp_log. symmetry. apply app_nil_r.
Qed.

Lemma ticks_emit w event : ticks (emit w event) = ticks w.
Proof.
  unfold writeServerSentEvent.
  destruct (Marshal event) as [ev|err]; simpl; [apply ticks_flush | reflexivity].
Qed.

(** What an emit does to the writer depends on the writer only. *)
Lemma resp_emit_ext w1 w2 event :
  resp w1 = resp w2 -> resp (emit w1 event) = resp (emit w2 event).
Proof.
  intros H. unfold writeServerSentEvent.
  destruct (Marshal event) as [ev|err]; simpl; [|exact H].
  unfold writeAndFlush. rewrite H.
  destruct (Write_fails (resp w2) _); [|destruct flusher]; simpl;
    now rewrite H.
Qed.

Lemma resp_go_ext acts :
  forall w1 w2, resp w1 = resp w2 -> resp (go acts w1) = resp (go acts w2).
Proof.
  induction acts as [|a acts IH]; intros w1 w2 H; [exact H|].
  simpl. apply IH. destruct a as [event|lv m at']; simpl.
  - now apply resp_emit_ext.
  - exact H.
Qed.

Lemma resp_fold_emit_ext (events : list any) :
  forall w1 w2, resp w1 = resp w2 ->
  resp (fold_left emit events w1) = resp (fold_left emit events w2).
Proof.
  induction events as [|e events IH]; intros w1 w2 H; [exact H|].
  simpl. apply IH. now apply resp_emit_ext.
Qed.

Lemma writes_go acts :
  forall w, writes (resp (go acts w))
            = writes (resp w) ++ flat_map (sent Marshal) acts.
Proof.
  unfold run.
  induction acts as [|a acts IH]; intros w; simpl.
  - symmetry. apply app_nil_r.
  - rewrite IH. rewrite app_assoc. f_equal.
    destruct a as [event|lv m at']; simpl.
    + apply writes_emit.
    + symmetry. apply app_nil_r.
Qed.

(** The writes of the finalizer: the error frame when there is a
    message, then the closing frame. *)
Lemma writes_finish w stdErr wait :
  writes (resp (finish w stdErr wait))
  = writes (resp w)
    ++ (if String.eqb (execErrOutput Quote stdErr (wait w)) "" then []
        else frame (VMap [("time", VTime (Now (ticks w)));
                          ("err", VString (execErrOutput Quote stdErr (wait w)))]))
    ++ [DONE].
Proof.
  unfold waitAndFinishStream.
  rewrite resp_log, writes_flush.
  destruct (String.eqb (execErrOutput Quote stdErr (wait w)) ""); simpl.
  - reflexivity.
  - rewrite writes_emit. simpl. now rewrite <- app_assoc.
Qed.

(** C6. When [wait] returns an error that is [context.DeadlineExceeded]
    or wraps it, [waitAndFinishStream] makes one call of
    [writeServerSentEvent], on an event whose [err] field holds a
    message that contains "took too long", and then writes the closing
    frame: when the event has an encoding [b], the writes added are the
    frame of [b] followed by [DONE]. *)
Theorem C6_deadline_exceeded (w : World) (stdErr : string)
    (wait : World -> option error) :
  Is_DeadlineExceeded (wait w) = true ->
  exists msg,
    Contains msg "took too long" = true
    /\ let ev := VMap [("time", VTime (Now (ticks w))); ("err", VString msg)] in
       finish w stdErr wait
       = log (flush (emit (snd (time_Now Now w)) ev) DONE)
           DEBUG "wrote DONE event" []
       /\ writes (resp (finish w stdErr wait))
          = writes (resp w) ++ frame ev ++ [DONE]
       /\ forall b, Marshal ev = Ok b ->
            writes (resp (finish w stdErr wait))
            = writes (resp w) ++ ["data: " +++ b +++ nlnl; DONE].
Proof.
  intros H.
  exists "The tool call took too long to complete, aborting".
  split; [reflexivity|].
  assert (Hm : execErrOutput Quote stdErr (wait w)
               = "The tool call took too long to complete, aborting")
    by (unfold execErrOutput; now rewrite H).
  cbv zeta. split; [|split].
  - unfold waitAndFinishStream. rewrite Hm. reflexivity.
  - rewrite writes_finish, Hm. reflexivity.
  - intros b Hb. rewrite writes_finish, Hm. unfold sse. rewrite Hb.
    reflexivity.
Qed.

(** C7. When [wait] returns nil, [waitAndFinishStream] sends no event:
    it writes the closing frame (and flushes it), logs, and leaves the
    clock alone; the one write added is [DONE]. *)
Theorem C7_wait_nil (w : World) (stdErr : string)
    (wait : World -> option error) :
  wait w = None ->
  finish w stdErr wait = log (flush w DONE) DEBUG "wrote DONE event" []
  /\ writes (resp (finish w stdErr wait)) = writes (resp w) ++ [DONE]
  /\ ticks (finish w stdErr wait) = ticks w.
Proof.
  intros H.
  assert (Hf : finish w stdErr wait
               = log (flush w DONE) DEBUG "wrote DONE event" [])
    by (unfold waitAndFinishStream, execErrOutput; now rewrite H).
  split; [exact Hf|]. rewrite Hf. split.
  - rewrite resp_log. apply writes_flush.
  - simpl. apply ticks_flush.
Qed.

(** C8. When [json.Marshal] fails on an event, [writeServerSentEvent]
    returns after one warning in the log and no call on the response
    writer; the loops that call it go on: the calls they make on the
    writer are those they make without that event. *)
Theorem C8_marshal_failure (event : any) (err : error) :
  Marshal event = Err err ->
  (forall w,
      emit w event = log w WARN "failed to marshal event" [("error", Error err)]
      /\ resp (emit w event) = resp w)
  /\ (forall pre post w,
        resp (fold_left emit (pre ++ event :: post) w)
        = resp (fold_left emit (pre ++ post) w))
  /\ (forall pre post w,
        resp (go (pre ++ Send event :: post) w) = resp (go (pre ++ post) w)).
Proof.
  intros H.
  assert (He : forall w, emit w event
                         = log w WARN "failed to marshal event"
                             [("error", Error err)])
    by (intros w; unfold writeServerSentEvent; now rewrite H).
  split; [|split].
  - intros w. rewrite He. split; reflexivity.
  - intros pre post w. rewrite !fold_left_app. simpl.
    apply resp_fold_emit_ext. now rewrite He.
  - intros pre post w. unfold run. rewrite !fold_left_app. simpl.
    apply resp_go_ext. now rewrite He.
Qed.

End Properties.

(** ** Properties of the event loop and of the two sessions *)

Section Sessions.

Variable Marshal : any -> result string.
Variable Unmarshal : list ascii -> result MapAny.
Variable Sprintv : any -> string.
Variable Quote : string -> string.
Variable Now : nat -> Z.
Variable Write_fails : list Call -> string -> bool.
Variable flusher : bool.

Local Abbreviation emit := (writeServerSentEvent Marshal Write_fails flusher).
Local Abbreviation flush := (writeAndFlush Write_fails flusher).
Local Abbreviation finish :=
  (waitAndFinishStream Marshal Quote Now Write_fails flusher).
Local Abbreviation go := (run Marshal Write_fails flusher).
Local Abbreviation loop :=
  (streamEvents_loop Marshal Unmarshal Sprintv Write_fails flusher).
Local Abbreviation events_of := (decoded Unmarshal).
Local Abbreviation frame := (sse Marshal).
Local Abbreviation drain :=
  (streamEvents Marshal Unmarshal Sprintv Write_fails flusher).
Local Abbreviation plain :=
  (processOutputStream Marshal Quote Now Write_fails flusher).
Local Abbreviation eventsMode :=
  (processEventStreamOutput Marshal Unmarshal Sprintv Quote Now
     Write_fails flusher).

Local Abbreviation runIDText := (runIDText Sprintv).

Lemma loop_app (a b : list (list ascii)) :
  forall lastRunID eventBuffer w,
    loop (a ++ b) lastRunID eventBuffer w
    = let '(l, bf, w') := loop a lastRunID eventBuffer w in loop b l bf w'.
Proof.
  induction a as [|bytes a IH]; intros lastRunID eventBuffer w; simpl.
  - reflexivity.
  - destruct (Nat.eqb (length bytes) 0); [apply IH|].
    destruct (Unmarshal bytes) as [e|err]; [|apply IH].
    destruct ((Nat.ltb 0 (length eventBuffer)
               || eqString (index e "type") callTypeConfirm)
              && negb (eqString (index e "runID") lastRunID)); apply IH.
Qed.

Lemma eqString_nonstring (v : any) (s : string) :
  isString v = false -> eqString v s = false.
Proof. destruct v; simpl; intros H; congruence. Qed.

(** With events in the buffer, events whose run identifier is not a
    string are all added to it, and nothing is called on the writer. *)
Lemma loop_buffering (events : list (list ascii)) :
  forall lastRunID eventBuffer w,
    eventBuffer <> [] ->
    forallb (fun e => negb (isString (index e "runID"))) (events_of events)
    = true ->
    exists lastRunID' w',
      loop events lastRunID eventBuffer w
      = (lastRunID', eventBuffer ++ events_of events, w')
      /\ resp w' = resp w.
Proof.
  induction events as [|bytes rest IH]; intros lastRunID eventBuffer w Hb Hall;
    simpl in *.
  - exists lastRunID, w. now rewrite app_nil_r.
  - destruct (Nat.eqb (length bytes) 0); [now apply IH|].
    destruct (Unmarshal bytes) as [e|err].
    + cbn [forallb] in Hall. apply andb_true_iff in Hall.
      destruct Hall as [He Hrest]. apply negb_true_iff in He.
      rewrite (eqString_nonstring _ lastRunID He).
      destruct eventBuffer as [|b0 bf]; [congruence|].
      cbn [length Nat.ltb Nat.leb orb andb negb].
      destruct (IH (Sprint Sprintv (index e "runID")) ((b0 :: bf) ++ [e]) w)
        as [l' [w' [Hl Hr]]]; [now destruct bf | exact Hrest |].
      exists l', w'. rewrite Hl, <- app_assoc. now split.
    + destruct (IH lastRunID eventBuffer
                  (log w ERROR "failed to unmarshal event"
                     [("error", Error err); ("event", Text bytes)]))
        as [l' [w' [Hl Hr]]]; [exact Hb | exact Hall |].
      exists l', w'. now split.
Qed.

(** C3. Once an event of type [callConfirm] whose run identifier is not
    a string is read, and as long as the events that follow have run
    identifiers that are not strings either, the loop of [streamEvents]
    adds that event and every later event to the buffer and calls
    nothing on the response writer; the buffer is dropped when
    [streamEvents] returns, so the session writes what it had written
    before that event. *)
Theorem C3_nonstring_runID_buffers_forever
    (bytes : list ascii) (rest : list (list ascii)) (e : MapAny) :
  Nat.eqb (length bytes) 0 = false ->
  Unmarshal bytes = Ok e ->
  index e "type" = VString callTypeConfirm ->
  forallb (fun e' => negb (isString (index e' "runID")))
    (events_of (bytes :: rest)) = true ->
  (forall lastRunID eventBuffer w,
      exists lastRunID' w',
        loop (bytes :: rest) lastRunID eventBuffer w
        = (lastRunID', eventBuffer ++ e :: events_of rest, w')
        /\ resp w' = resp w)
  /\ (forall pre w,
        resp (drain w (pre ++ bytes :: rest)) = resp (drain w pre)).
Proof.
  intros Hlen Hdec Htype Hall.
  assert (Hev : events_of (bytes :: rest) = e :: events_of rest)
    by (simpl; now rewrite Hlen, Hdec).
  assert (Hloop : forall lastRunID eventBuffer w,
             exists lastRunID' w',
               loop (bytes :: rest) lastRunID eventBuffer w
               = (lastRunID', eventBuffer ++ e :: events_of rest, w')
               /\ resp w' = resp w).
  { intros lastRunID eventBuffer w.
    rewrite Hev in Hall. cbn [forallb] in Hall.
    apply andb_true_iff in Hall. destruct Hall as [He Hrest].
    apply negb_true_iff in He.
    cbn [streamEvents_loop]. rewrite Hlen, Hdec, Htype.
    rewrite (eqString_nonstring _ lastRunID He).
    replace (eqString (VString callTypeConfirm) callTypeConfirm) with true
      by reflexivity.
    rewrite orb_true_r. cbn [andb negb].
    destruct (loop_buffering rest (Sprint Sprintv (index e "runID"))
                (eventBuffer ++ [e]) w) as [l' [w' [Hl Hr]]].
    - now destruct eventBuffer.
    - exact Hrest.
    - exists l', w'. rewrite Hl, <- app_assoc. now split. }
  split; [exact Hloop|].
  intros pre w. unfold streamEvents.
  rewrite loop_app.
  destruct (loop pre "" [] (log w DEBUG "receiving events" []))
    as [[l1 b1] w1].
  destruct (Hloop l1 b1 w1) as [l' [w' [Hl Hr]]].
  rewrite Hl. simpl. exact Hr.
Qed.

(** C4 (amended). After any lines, [lastRunID] holds the text of the run
    identifier of the last event that was decoded, whether the loop
    buffered or sent that event; it still holds its starting value (the
    empty string in [streamEvents]) when no event was decoded. *)
Theorem C4_lastRunID_tracks_last_decoded (events : list (list ascii)) :
  forall lastRunID eventBuffer w,
    fst (fst (loop events lastRunID eventBuffer w))
    = last (map runIDText (events_of events)) lastRunID.
Proof.
  induction events as [|bytes rest IH]; intros lastRunID eventBuffer w.
  - reflexivity.
  - cbn [streamEvents_loop decoded].
    destruct (Nat.eqb (length bytes) 0); [apply IH|].
    destruct (Unmarshal bytes) as [e|err]; [|apply IH].
    assert (Hlast : forall l d, last (map runIDText (e :: l)) d
                                = last (map runIDText l) (runIDText e)).
    { intros l d. simpl. destruct (map runIDText l) as [|x xs] eqn:Hm.
      - reflexivity.
      - clear. revert x. induction xs as [|y ys IHy]; intros x.
        + reflexivity.
        + simpl in *. apply IHy. }
    rewrite Hlast.
    destruct ((Nat.ltb 0 (length eventBuffer)
               || eqString (index e "type") callTypeConfirm)
              && negb (eqString (index e "runID") lastRunID)); apply IH.
Qed.

(** C1 (amended). When the run identifiers are strings, the loop of
    [streamEvents] buffers nothing on the three events: each is sent
    when it is read, the [callConfirm] event right after the first event
    of its run, so the frames are written in the order first event,
    confirm event, third event. *)
Theorem C1_string_runIDs_sent_on_arrival
    (b1 b2 b3 : list ascii) (e1 e2 e3 : MapAny) (r1 : string) (w : World) :
  Nat.eqb (length b1) 0 = false ->
  Nat.eqb (length b2) 0 = false ->
  Nat.eqb (length b3) 0 = false ->
  Unmarshal b1 = Ok e1 -> Unmarshal b2 = Ok e2 -> Unmarshal b3 = Ok e3 ->
  index e1 "runID" = VString r1 ->
  eqString (index e1 "type") callTypeConfirm = false ->
  index e2 "runID" = VString r1 ->
  index e2 "type" = VString callTypeConfirm ->
  eqString (index e3 "type") callTypeConfirm = false ->
  loop [b1] "" [] w = (r1, [], emit w (VMap e1))
  /\ loop [b1; b2] "" [] w = (r1, [], emit (emit w (VMap e1)) (VMap e2))
  /\ loop [b1; b2; b3] "" [] w
     = (runIDText e3, [],
        emit (emit (emit w (VMap e1)) (VMap e2)) (VMap e3))
  /\ writes (resp (drain w [b1; b2; b3]))
     = writes (resp w)
       ++ frame (VMap e1) ++ frame (VMap e2) ++ frame (VMap e3).
Proof.
  intros N1 N2 N3 U1 U2 U3 R1 T1 R2 T2 T3.
  assert (S1 : forall rest w',
             loop (b1 :: rest) "" [] w' = loop rest r1 [] (emit w' (VMap e1))).
  { intros rest w'. cbn [streamEvents_loop]. rewrite N1, U1, T1, R1.
    reflexivity. }
  assert (S2 : forall rest w',
             loop (b2 :: rest) r1 [] w' = loop rest r1 [] (emit w' (VMap e2))).
  { intros rest w'. cbn [streamEvents_loop]. rewrite N2, U2, T2, R2.
    cbn [eqString Sprint]. rewrite !String.eqb_refl. reflexivity. }
  assert (S3 : forall rest l w',
             loop (b3 :: rest) l [] w'
             = loop rest (runIDText e3) [] (emit w' (VMap e3))).
  { intros rest l w'. cbn [streamEvents_loop]. rewrite N3, U3, T3.
    reflexivity. }
  repeat split.
  - now rewrite S1.
  - now rewrite S1, S2.
  - now rewrite S1, S2, S3.
  - unfold streamEvents. rewrite S1, S2, S3. cbn [streamEvents_loop].
    rewrite resp_log, !writes_emit, resp_log, <- !app_assoc. reflexivity.
Qed.

Lemma ticks_loop (events : list (list ascii)) :
  forall lastRunID eventBuffer w,
    ticks (snd (loop events lastRunID eventBuffer w)) = ticks w.
Proof.
  assert (F : forall bf w,
             ticks (fold_left (fun w ev => emit w (VMap ev)) bf w) = ticks w).
  { induction bf as [|b bf IHb]; intros w; simpl; [reflexivity|].
    rewrite IHb. apply ticks_emit. }
  induction events as [|bytes rest IH]; intros lastRunID eventBuffer w.
  - reflexivity.
  - cbn [streamEvents_loop].
    destruct (Nat.eqb (length bytes) 0); [apply IH|].
    destruct (Unmarshal bytes) as [e|err]; [|now rewrite IH].
    destruct ((Nat.ltb 0 (length eventBuffer)
               || eqString (index e "type") callTypeConfirm)
              && negb (eqString (index e "runID") lastRunID)).
    + apply IH.
    + rewrite IH, ticks_emit. apply F.
Qed.

Lemma ticks_drain w events : ticks (drain w events) = ticks w.
Proof.
  unfold streamEvents.
  pose proof (ticks_loop events "" [] (log w DEBUG "receiving events" [])) as H.
  destruct (loop events "" [] (log w DEBUG "receiving events" []))
    as [[l b] w']. exact H.
Qed.

Lemma eventsMode_success (w : World) (stdout stderr : Reader)
    (events : list (list ascii)) (wait : World -> option error) :
  rerr stdout = None ->
  rerr stderr = None ->
  let stdErr := Text (concat (reads stderr)) in
  let out := Text (concat (reads stdout)) in
  let w1 := drain (setStreamingHeaders w) events in
  let ev1 := VMap [("time", VTime (Now (ticks w)));
                   ("stderr", VString stdErr)] in
  let w2 := emit (snd (time_Now Now w1)) ev1 in
  let ev2 := VMap [("time", VTime (Now (S (ticks w))));
                   ("stdout", VString out)] in
  let w3 := emit (snd (time_Now Now w2)) ev2 in
  eventsMode w stdout stderr events wait = finish w3 stdErr wait
  /\ ticks w3 = S (S (ticks w)).
Proof.
  intros Hout Herr stdErr out w1 ev1 w2 ev2 w3.
  assert (T1 : ticks w1 = ticks w) by (unfold w1; now rewrite ticks_drain).
  assert (T2 : ticks w2 = S (ticks w))
    by (unfold w2; rewrite ticks_emit; simpl; now rewrite T1).
  assert (T3 : ticks w3 = S (S (ticks w)))
    by (unfold w3; rewrite ticks_emit; simpl; now rewrite T2).
  split; [|exact T3].
  unfold processEventStreamOutput, ReadAll. rewrite Hout, Herr.
  fold w1. unfold time_Now at 1. cbv beta iota zeta.
  replace (Now (ticks w1)) with (Now (ticks w)) by now rewrite T1.
  change (emit {| resp := resp w1; logs := logs w1; ticks := S (ticks w1) |}
            (VMap [("time", VTime (Now (ticks w)));
                   ("stderr", VString (Text (concat (reads stderr))))]))
    with w2.
  unfold time_Now at 1. cbv beta iota zeta.
  replace (Now (ticks w2)) with (Now (S (ticks w))) by now rewrite T2.
  reflexivity.
Qed.

(** *** The closing frame *)

Lemma frame_of_map_not_DONE :
  (forall m b, Marshal (VMap m) = Ok b -> b <> "[DONE]") ->
  forall m p, In p (frame (VMap m)) -> p <> DONE.
Proof.
  intros HM m p Hin Hp. unfold sse in Hin.
  destruct (Marshal (VMap m)) as [b|err] eqn:Hb; [|contradiction].
  destruct Hin as [Hin|[]]. subst p.
  unfold DONE in Hp. simpl in Hp. injection Hp as Hp.
  apply (append_inj_r nlnl b "[DONE]") in Hp.
  exact (HM m b Hb Hp).
Qed.

Lemma writes_flushBuffer (eventBuffer : list MapAny) :
  forall w, exists pre,
    writes (resp (fold_left (fun w ev => emit w (VMap ev)) eventBuffer w))
    = writes (resp w) ++ pre
    /\ forall p, In p pre -> exists m, In p (frame (VMap m)).
Proof.
  induction eventBuffer as [|e bf IH]; intros w; simpl.
  - exists []. rewrite app_nil_r. split; [reflexivity | contradiction].
  - destruct (IH (emit w (VMap e))) as [pre [Hw Hp]].
    exists (frame (VMap e) ++ pre). rewrite Hw, writes_emit, app_assoc.
    split; [reflexivity|].
    intros p Hin. apply in_app_or in Hin. destruct Hin as [Hin|Hin].
    + now exists e.
    + now apply Hp.
Qed.

Lemma writes_loop (events : list (list ascii)) :
  forall lastRunID eventBuffer w, exists pre,
    writes (resp (snd (loop events lastRunID eventBuffer w)))
    = writes (resp w) ++ pre
    /\ forall p, In p pre -> exists m, In p (frame (VMap m)).
Proof.
  induction events as [|bytes rest IH]; intros lastRunID eventBuffer w.
  - exists []. simpl. rewrite app_nil_r. split; [reflexivity | contradiction].
  - cbn [streamEvents_loop].
    destruct (Nat.eqb (length bytes) 0); [apply IH|].
    destruct (Unmarshal bytes) as [e|err].
    2: { destruct (IH lastRunID eventBuffer
                     (log w ERROR "failed to unmarshal event"
                        [("error", Error err); ("event", Text bytes)]))
           as [pre [H P]].
         exists pre. split; [exact H | exact P]. }
    destruct ((Nat.ltb 0 (length eventBuffer)
               || eqString (index e "type") callTypeConfirm)
              && negb (eqString (index e "runID") lastRunID)); [apply IH|].
    destruct (writes_flushBuffer eventBuffer w) as [pre1 [H1 P1]].
    destruct (IH (Sprint Sprintv (index e "runID")) []
                (emit (fold_left (fun w ev => emit w (VMap ev)) eventBuffer w)
                   (VMap e))) as [pre2 [H2 P2]].
    exists (pre1 ++ frame (VMap e) ++ pre2).
    rewrite H2, writes_emit, H1, <- !app_assoc. split; [reflexivity|].
    intros p Hin. apply in_app_or in Hin. destruct Hin as [Hin|Hin].
    + now apply P1.
    + apply in_app_or in Hin. destruct Hin as [Hin|Hin].
      * now exists e.
      * now apply P2.
Qed.

Lemma writes_drain w events :
  exists pre,
    writes (resp (drain w events)) = writes (resp w) ++ pre
    /\ forall p, In p pre -> exists m, In p (frame (VMap m)).
Proof.
  unfold streamEvents.
  destruct (writes_loop events "" [] (log w DEBUG "receiving events" []))
    as [pre [H P]].
  destruct (loop events "" [] (log w DEBUG "receiving events" []))
    as [[l b] w']. exists pre. split; [exact H | exact P].
Qed.

Lemma writes_setStreamingHeaders w :
  writes (resp (setStreamingHeaders w)) = writes (resp w).
Proof.
  unfold setStreamingHeaders. simpl. rewrite !writes_app. simpl.
  now rewrite !app_nil_r.
Qed.

Lemma sent_relay key chunks a p :
  In a (flat_map (relay key) chunks) -> In p (sent Marshal a) ->
  exists m, In p (frame (VMap m)).
Proof.
  intros Ha Hp. apply in_flat_map in Ha. destruct Ha as [f [_ Ha]].
  destruct Ha as [Ha|[Ha|[]]]; subst a; simpl in Hp.
  - now exists [(key, VString (Text f))].
  - contradiction.
Qed.

Lemma finish_error_frame stdErr err t p :
  In p (if String.eqb (execErrOutput Quote stdErr err) "" then []
        else frame (VMap [("time", VTime t);
                          ("err", VString (execErrOutput Quote stdErr err))])) ->
  exists m, In p (frame (VMap m)).
Proof.
  destruct (String.eqb (execErrOutput Quote stdErr err) "");
    [contradiction|]. intros H. eexists. exact H.
Qed.

(** X17. A plain streaming session, under every schedule of its two
    goroutines, and an events-mode session in which both [io.ReadAll]
    calls succeed, whatever [wait] returns, end with the write of
    [DONE], and none of the writes made before it in the session is
    [DONE].  (The encoder is taken never to return the text [[DONE]],
    which is not JSON, for a map.) *)
Theorem X17_done_once_and_last :
  (forall m b, Marshal (VMap m) = Ok b -> b <> "[DONE]") ->
  (forall sched w stdout stderr wait,
      exists w' pre,
        plain sched w stdout stderr wait = Some w'
        /\ writes (resp w') = writes (resp w) ++ pre ++ [DONE]
        /\ ~ In DONE pre)
  /\ (forall w stdout stderr events wait,
        rerr stdout = None -> rerr stderr = None ->
        exists pre,
          writes (resp (eventsMode w stdout stderr events wait))
          = writes (resp w) ++ pre ++ [DONE]
          /\ ~ In DONE pre).
Proof.
  intros HM.
  pose proof (frame_of_map_not_DONE HM) as ND.
  split.
  - intros sched w stdout stderr wait.
    unfold processOutputStream. rewrite !streamOutput_frames.
    set (acts := interleave sched
                   (flat_map (relay "stdout") (frames (reads stdout)))
                   (flat_map (relay "stderr") (frames (reads stderr)))).
    set (w1 := go acts (setStreamingHeaders w)).
    set (tail := if String.eqb (execErrOutput Quote "" (wait w1)) "" then []
                 else frame (VMap [("time", VTime (Now (ticks w1)));
                                   ("err", VString (execErrOutput Quote ""
                                                      (wait w1)))])).
    exists (finish w1 "" wait), (flat_map (sent Marshal) acts ++ tail).
    split; [reflexivity|]. split.
    + rewrite writes_finish. fold tail. unfold w1.
      rewrite writes_go, writes_setStreamingHeaders.
      now rewrite <- !app_assoc.
    + intros Hin. apply in_app_or in Hin. destruct Hin as [Hin|Hin].
      * apply in_flat_map in Hin. destruct Hin as [a [Ha Hp]].
        apply interleave_In in Ha.
        destruct Ha as [Ha|Ha];
          destruct (sent_relay _ _ _ _ Ha Hp) as [m Hm];
          exact (ND m DONE Hm eq_refl).
      * apply finish_error_frame in Hin. destruct Hin as [m Hm].
        exact (ND m DONE Hm eq_refl).
  - intros w stdout stderr events wait Hout Herr.
    destruct (eventsMode_success w stdout stderr events wait Hout Herr)
      as [E T3].
    cbv zeta in E, T3.
    assert (Hw := f_equal (fun x => writes (resp x)) E).
    cbv beta in Hw.
    rewrite writes_finish, T3, writes_emit in Hw. simpl resp in Hw.
    rewrite writes_emit in Hw. simpl resp in Hw.
    destruct (writes_drain (setStreamingHeaders w) events) as [pre [Hd Hp]].
    rewrite Hd, writes_setStreamingHeaders, <- !app_assoc in Hw.
    match type of Hw with
    | _ = _ ++ pre ++ ?f1 ++ ?f2 ++ ?f3 ++ _ =>
        exists (pre ++ f1 ++ f2 ++ f3); split;
          [rewrite Hw, <- !app_assoc; reflexivity|];
          intros Hin;
          repeat (apply in_app_or in Hin; destruct Hin as [Hin|Hin])
    end.
    + destruct (Hp _ Hin) as [m Hm]. exact (ND m DONE Hm eq_refl).
    + exact (ND _ DONE Hin eq_refl).
    + exact (ND _ DONE Hin eq_refl).
    + apply finish_error_frame in Hin. destruct Hin as [m Hm].
      exact (ND m DONE Hm eq_refl).
Qed.

End Sessions.

(** ** Worked examples *)

Lemma Sample_Marshal_map (m : list (string * any)) (b : string) :
  Sample.Marshal (VMap m) = Ok b -> b <> "[DONE]".
Proof.
  simpl. destruct (Sample.all _) as [parts|e]; intros H; inversion H.
  discriminate.
Qed.

(** The worked example of the reorderer with numbers as run
    identifiers: the three lines decode to the three events, and the
    session writes the frame of the first event and nothing else.  With
    strings as run identifiers, the confirm event is already written when
    only the two events of the first run have been read. *)
Lemma C1_numeric_runIDs_counterexample :
  map Sample.Unmarshal (map Sample.line [Sample.n1; Sample.n2; Sample.n3])
  = [Ok Sample.n1; Ok Sample.n2; Ok Sample.n3]
  /\ writes (resp (Sample.streamEvents Sample.world0
                     (map Sample.line [Sample.n1; Sample.n2; Sample.n3])))
     = [Sample.frame Sample.n1]
  /\ writes (resp (Sample.streamEvents Sample.world0
                     (map Sample.line [Sample.n1; Sample.n2; Sample.n3])))
     <> [Sample.frame Sample.n1; Sample.frame Sample.n2; Sample.frame Sample.n3]
  /\ writes (resp (Sample.streamEvents Sample.world0
                     (map Sample.line [Sample.s1; Sample.s2])))
     = [Sample.frame Sample.s1; Sample.frame Sample.s2].
Proof.
  split; [reflexivity|]. split; [reflexivity|].
  split; [vm_compute; discriminate | reflexivity].
Qed.

(** The same example with strings as run identifiers. *)
Lemma C1_string_runIDs_witness :
  Sample.streamEvents_loop
    [Sample.line Sample.s1; Sample.line Sample.s2] "" [] Sample.world0
  = ("1", [],
     Sample.writeServerSentEvent
       (Sample.writeServerSentEvent Sample.world0 (VMap Sample.s1))
       (VMap Sample.s2))
  /\ writes (resp (Sample.streamEvents Sample.world0
                     (map Sample.line [Sample.s1; Sample.s2; Sample.s3])))
     = [Sample.frame Sample.s1; Sample.frame Sample.s2; Sample.frame Sample.s3].
Proof.
  destruct (C1_string_runIDs_sent_on_arrival
              Sample.Marshal Sample.Unmarshal Sample.Sprintv
              Sample.Write_fails Sample.flusher
              (Sample.line Sample.s1) (Sample.line Sample.s2)
              (Sample.line Sample.s3) Sample.s1 Sample.s2 Sample.s3 "1"
              Sample.world0
              eq_refl eq_refl eq_refl eq_refl eq_refl eq_refl
              eq_refl eq_refl eq_refl eq_refl eq_refl)
    as [_ [H2 [_ H4]]].
  split; [exact H2 | exact H4].
Defined.

(** C2. The closing frame is missing from an events-mode session whose
    stdout cannot be read to the end: after the headers the calls are
    the status code 500 and an error body that is no frame; no error
    event is sent and [DONE] is not written. *)
Lemma C2_read_failure_counterexample :
  resp (Sample.processEventStreamOutput Sample.world0 Sample.broken
          Sample.errs [] Sample.success)
  = [SetHeader "Content-Type" "text/event-stream";
     SetHeader "Cache-Control" "no-cache";
     SetHeader "Connection" "keep-alive";
     WriteHeader 500;
     Write (Sample.encode
              [("error",
                VString "failed to read stdout: read |0: file already closed")])]
  /\ ~ In DONE (writes (resp (Sample.processEventStreamOutput Sample.world0
                                Sample.broken Sample.errs [] Sample.success))).
Proof.
  split; [reflexivity|].
  vm_compute. intros [H|[]]. discriminate.
Qed.

Lemma X17_done_witness :
  (forall m b, Sample.Marshal (VMap m) = Ok b -> b <> "[DONE]")
  /\ (exists w' pre,
         Sample.processOutputStream [true; false; false] Sample.world0
           Sample.out Sample.errs Sample.timeout = Some w'
         /\ writes (resp w') = writes (resp Sample.world0) ++ pre ++ [DONE]
         /\ ~ In DONE pre)
  /\ rerr Sample.out = None
  /\ rerr Sample.errs = None
  /\ (exists pre,
         writes (resp (Sample.processEventStreamOutput Sample.world0
                         Sample.out Sample.errs
                         (map Sample.line [Sample.s1; Sample.s2; Sample.s3])
                         Sample.timeout))
         = writes (resp Sample.world0) ++ pre ++ [DONE]
         /\ ~ In DONE pre).
Proof.
  destruct (X17_done_once_and_last
              Sample.Marshal Sample.Unmarshal Sample.Sprintv Sample.Quote
              Sample.Now Sample.Write_fails Sample.flusher Sample_Marshal_map)
    as [P E].
  split; [exact Sample_Marshal_map|].
  split; [apply P|].
  split; [reflexivity|]. split; [reflexivity|].
  apply E; reflexivity.
Defined.

Lemma C3_buffers_witness :
  Nat.eqb (length (Sample.line Sample.n2)) 0 = false
  /\ Sample.Unmarshal (Sample.line Sample.n2) = Ok Sample.n2
  /\ index Sample.n2 "type" = VString callTypeConfirm
  /\ (exists lastRunID' w',
         Sample.streamEvents_loop
           [Sample.line Sample.n2; Sample.line Sample.n3] "1" []
           Sample.world0
         = (lastRunID', [] ++ Sample.n2 :: decoded Sample.Unmarshal
                                             [Sample.line Sample.n3], w')
         /\ resp w' = resp Sample.world0)
  /\ resp (Sample.streamEvents Sample.world0
             ([Sample.line Sample.n1]
                ++ [Sample.line Sample.n2; Sample.line Sample.n3]))
     = resp (Sample.streamEvents Sample.world0 [Sample.line Sample.n1]).
Proof.
  destruct (C3_nonstring_runID_buffers_forever
              Sample.Marshal Sample.Unmarshal Sample.Sprintv
              Sample.Write_fails Sample.flusher
              (Sample.line Sample.n2) [Sample.line Sample.n3] Sample.n2
              eq_refl eq_refl eq_refl eq_refl) as [L S].
  split; [reflexivity|]. split; [reflexivity|]. split; [reflexivity|].
  split; [apply L | apply S].
Defined.

(** One [callConfirm] line from the start: the event is buffered, no call
    was made on the writer, and [lastRunID] already holds its run
    identifier. *)
Lemma C4_buffered_counterexample :
  Sample.Unmarshal (Sample.line Sample.s2) = Ok Sample.s2
  /\ Sample.streamEvents_loop [Sample.line Sample.s2] "" [] Sample.world0
     = ("1", [Sample.s2], Sample.world0)
  /\ resp Sample.world0 = []
  /\ fst (fst (Sample.streamEvents_loop [Sample.line Sample.s2] "" []
                 Sample.world0)) <> "".
Proof.
  split; [reflexivity|]. split; [reflexivity|]. split; [reflexivity|].
  vm_compute. discriminate.
Qed.

Lemma C6_deadline_witness :
  Is_DeadlineExceeded (Sample.timeout Sample.world0) = true
  /\ exists msg,
       Contains msg "took too long" = true
       /\ writes (resp (Sample.waitAndFinishStream Sample.world0 ""
                          Sample.timeout))
          = writes (resp Sample.world0)
            ++ sse Sample.Marshal
                 (VMap [("time", VTime (Sample.Now 0)); ("err", VString msg)])
            ++ [DONE].
Proof.
  split; [reflexivity|].
  destruct (C6_deadline_exceeded
              Sample.Marshal Sample.Quote Sample.Now Sample.Write_fails
              Sample.flusher Sample.world0 "" Sample.timeout eq_refl)
    as [msg [Hc [_ [Hw _]]]].
  exists msg. split; [exact Hc | exact Hw].
Defined.

Lemma C7_nil_witness :
  Sample.success Sample.world0 = None
  /\ writes (resp (Sample.waitAndFinishStream Sample.world0 "" Sample.success))
     = writes (resp Sample.world0) ++ [DONE].
Proof.
  split; [reflexivity|].
  apply (C7_wait_nil Sample.Marshal Sample.Quote Sample.Now
           Sample.Write_fails Sample.flusher Sample.world0 ""
           Sample.success eq_refl).
Defined.

Lemma C8_channel_witness :
  Sample.Marshal (VMap [("ch", VChan)])
  = Err (errorString "json: unsupported type: chan int")
  /\ resp (Sample.writeServerSentEvent Sample.world0 (VMap [("ch", VChan)]))
     = resp Sample.world0
  /\ resp (run Sample.Marshal Sample.Write_fails Sample.flusher
             ([Send (VMap Sample.s1)] ++ Send (VMap [("ch", VChan)])
                :: [Send (VMap Sample.s3)]) Sample.world0)
     = resp (run Sample.Marshal Sample.Write_fails Sample.flusher
               ([Send (VMap Sample.s1)] ++ [Send (VMap Sample.s3)])
               Sample.world0).
Proof.
  destruct (C8_marshal_failure
              Sample.Marshal Sample.Write_fails Sample.flusher
              (VMap [("ch", VChan)])
              (errorString "json: unsupported type: chan int") eq_refl)
    as [E [_ G]].
  split; [reflexivity|].
  split; [apply E | apply G].
Defined.

(** ** Further properties: the split function and the finalizer *)

(** X1. [dropCR] either finds a final carriage return and returns the
    data without it, or finds none and returns the data as it is. *)
Theorem X1_dropCR_characterised (data : list ascii) :
  (exists d, data = d ++ [CR] /\ dropCR data = d)
  \/ ((forall d, data <> d ++ [CR]) /\ dropCR data = data).
Proof.
  induction data as [|a d _] using rev_ind.
  - right. split; [intros [|? ?]; discriminate | reflexivity].
  - destruct (Ascii.eqb a CR) eqn:Ha.
    + apply Ascii.eqb_eq in Ha. subst a. left. exists d.
      split; [reflexivity | apply dropCR_snoc].
    + right. split.
      * intros d' H. apply app_inj_tail in H. destruct H as [_ H].
        subst a. now rewrite Ascii.eqb_refl in Ha.
      * unfold dropCR. rewrite length_app. simpl.
        replace (length d + 1 - 1) with (length d) by lia.
        rewrite app_nth2 by lia. rewrite Nat.sub_diag. simpl.
        rewrite Ha, andb_false_r. reflexivity.
Qed.

Section Finalizer.

Variable Marshal : any -> result string.
Variable Quote : string -> string.
Variable Now : nat -> Z.
Variable Write_fails : list Call -> string -> bool.
Variable flusher : bool.

Local Abbreviation emit := (writeServerSentEvent Marshal Write_fails flusher).
Local Abbreviation flush := (writeAndFlush Write_fails flusher).
Local Abbreviation finish :=
  (waitAndFinishStream Marshal Quote Now Write_fails flusher).
Local Abbreviation frame := (sse Marshal).

Lemma execErrOutput_nonempty (stdErr : string) (e : error) :
  String.eqb (execErrOutput Quote stdErr (Some e)) "" = false.
Proof.
  unfold execErrOutput.
  destruct (Is_DeadlineExceeded (Some e)); [reflexivity|].
  destruct (As_ExitError (Some e)) as [[code state]|]; reflexivity.
Qed.

(** X2. For every error that [wait] returns, of whatever kind,
    [waitAndFinishStream] reads the clock once and sends one event whose
    [err] field is a message that is not empty, then writes the closing
    frame. *)
Theorem X2_error_event_for_every_error (w : World) (stdErr : string)
    (wait : World -> option error) (e : error) :
  wait w = Some e ->
  let msg := execErrOutput Quote stdErr (Some e) in
  let ev := VMap [("time", VTime (Now (ticks w))); ("err", VString msg)] in
  msg <> ""
  /\ finish w stdErr wait
     = log (flush (emit (snd (time_Now Now w)) ev) DONE)
         DEBUG "wrote DONE event" []
  /\ writes (resp (finish w stdErr wait))
     = writes (resp w) ++ frame ev ++ [DONE]
  /\ ticks (finish w stdErr wait) = S (ticks w).
Proof.
  intros H msg ev.
  pose proof (execErrOutput_nonempty stdErr e) as Hne. fold msg in Hne.
  assert (Hf : finish w stdErr wait
               = log (flush (emit (snd (time_Now Now w)) ev) DONE)
                   DEBUG "wrote DONE event" []).
  { unfold waitAndFinishStream. rewrite H. fold msg. rewrite Hne.
    reflexivity. }
  split; [|split; [exact Hf|split]].
  - intros Hm. rewrite Hm in Hne. discriminate.
  - rewrite writes_finish, H. fold msg. rewrite Hne. reflexivity.
  - rewrite Hf. simpl. rewrite ticks_flush, ticks_emit. reflexivity.
Qed.

(** X3. Wrapping a deadline error or an exit error (as [fmt.Errorf]
    does with [%w]) does not change the message of the error event: the
    class of the innermost error decides. *)
Theorem X3_wrapping_keeps_the_message (stdErr msg : string) (e : error) :
  Is_chain e || match As_chain e with Some _ => true | None => false end
  = true ->
  execErrOutput Quote stdErr (Some (wrapError msg e))
  = execErrOutput Quote stdErr (Some e).
Proof.
  intros H. unfold execErrOutput. simpl.
  destruct (Is_chain e); [reflexivity|].
  destruct (As_chain e) as [[code state]|]; [reflexivity | discriminate].
Qed.

(** X4. When [errors.As] finds an exit error in the error of [wait],
    the message of the error event gives its exit code in decimal, its
    text and the captured stderr, both quoted; unless [errors.Is] also
    finds a deadline error in it (an error that joins the two), for the
    deadline is tested first and its message is then the one sent. *)
Theorem X4_exit_error_message (w : World) (stdErr : string)
    (wait : World -> option error) (code : Z) (state : string) :
  As_ExitError (wait w) = Some (code, state) ->
  let msg :=
    if Is_DeadlineExceeded (wait w)
    then "The tool call took too long to complete, aborting"
    else "The tool call returned an exit code of " +++ fmt_d code
         +++ " with message " +++ Quote state
         +++ " and output " +++ Quote stdErr in
  execErrOutput Quote stdErr (wait w) = msg
  /\ writes (resp (finish w stdErr wait))
     = writes (resp w)
       ++ frame (VMap [("time", VTime (Now (ticks w))); ("err", VString msg)])
       ++ [DONE].
Proof.
  intros H msg.
  assert (Hm : execErrOutput Quote stdErr (wait w) = msg)
    by (unfold execErrOutput, msg; destruct (Is_DeadlineExceeded (wait w));
        [reflexivity | now rewrite H]).
  assert (Hne : String.eqb msg "" = false)
    by (unfold msg; destruct (Is_DeadlineExceeded (wait w)); reflexivity).
  split; [exact Hm|].
  rewrite writes_finish, Hm, Hne. reflexivity.
Qed.

End Finalizer.

(** ** Further properties: the calls on the response writer *)

Lemma interleave_filter_l (p : Action -> bool) (sched : list bool) :
  forall xs ys,
    forallb p xs = true -> forallb (fun a => negb (p a)) ys = true ->
    filter p (interleave sched xs ys) = xs.
Proof.
  assert (Hx : forall xs, forallb p xs = true -> filter p xs = xs).
  { induction xs as [|x xs IH]; simpl; [reflexivity|].
    intros H. apply andb_true_iff in H. destruct H as [H1 H2].
    rewrite H1. f_equal. now apply IH. }
  assert (Hy : forall ys, forallb (fun a => negb (p a)) ys = true ->
                          filter p ys = []).
  { induction ys as [|y ys IH]; simpl; [reflexivity|].
    intros H. apply andb_true_iff in H. destruct H as [H1 H2].
    apply negb_true_iff in H1. rewrite H1. now apply IH. }
  induction sched as [|b sched IH]; intros xs ys Hxs Hys; simpl.
  - rewrite filter_app, Hx, Hy by assumption. apply app_nil_r.
  - destruct xs as [|x xs]; [now apply Hy|].
    destruct ys as [|y ys]; [now apply Hx|].
    simpl in Hxs, Hys.
    apply andb_true_iff in Hxs. destruct Hxs as [Hx1 Hx2].
    apply andb_true_iff in Hys. destruct Hys as [Hy1 Hy2].
    destruct b; simpl.
    + rewrite Hx1. f_equal. apply IH; [exact Hx2|].
      simpl. now rewrite Hy1, Hy2.
    + apply negb_true_iff in Hy1. rewrite Hy1.
      apply IH; [|exact Hy2]. simpl. now rewrite Hx1, Hx2.
Qed.

Lemma interleave_filter_r (p : Action -> bool) (sched : list bool) :
  forall xs ys,
    forallb (fun a => negb (p a)) xs = true -> forallb p ys = true ->
    filter p (interleave sched xs ys) = ys.
Proof.
  assert (Hx : forall xs, forallb p xs = true -> filter p xs = xs).
  { induction xs as [|x xs IH]; simpl; [reflexivity|].
    intros H. apply andb_true_iff in H. destruct H as [H1 H2].
    rewrite H1. f_equal. now apply IH. }
  assert (Hy : forall ys, forallb (fun a => negb (p a)) ys = true ->
                          filter p ys = []).
  { induction ys as [|y ys IH]; simpl; [reflexivity|].
    intros H. apply andb_true_iff in H. destruct H as [H1 H2].
    apply negb_true_iff in H1. rewrite H1. now apply IH. }
  induction sched as [|b sched IH]; intros xs ys Hxs Hys; simpl.
  - rewrite filter_app, (Hy xs), (Hx ys) by assumption. reflexivity.
  - destruct xs as [|x xs]; [now apply Hx|].
    destruct ys as [|y ys]; [now apply Hy|].
    simpl in Hxs, Hys.
    apply andb_true_iff in Hxs. destruct Hxs as [Hx1 Hx2].
    apply andb_true_iff in Hys. destruct Hys as [Hy1 Hy2].
    destruct b; simpl.
    + apply negb_true_iff in Hx1. rewrite Hx1.
      apply IH; [exact Hx2|]. simpl. now rewrite Hy1, Hy2.
    + rewrite Hy1. f_equal. apply IH; [|exact Hy2].
      simpl. now rewrite Hx1, Hx2.
Qed.

Lemma interleave_length (sched : list bool) :
  forall xs ys, length (interleave sched xs ys) = length xs + length ys.
Proof.
  induction sched as [|b sched IH]; intros xs ys; simpl.
  - apply length_app.
  - destruct xs as [|x xs]; [reflexivity|].
    destruct ys as [|y ys]; [simpl; lia|].
    destruct b; simpl; rewrite IH; simpl; lia.
Qed.

Lemma fromStream_relay (key key' : string) (fs : list (list ascii)) :
  forallb (fun a => if String.eqb key key' then fromStream key' a
                    else negb (fromStream key' a))
    (flat_map (relay key) fs) = true.
Proof.
  induction fs as [|f fs IH]; simpl; [reflexivity|].
  rewrite IH. destruct (String.eqb key key'); reflexivity.
Qed.

Section Traces.

Variable Marshal : any -> result string.
Variable Unmarshal : list ascii -> result MapAny.
Variable Sprintv : any -> string.
Variable Quote : string -> string.
Variable Now : nat -> Z.
Variable Write_fails : list Call -> string -> bool.
Variable flusher : bool.

Variable Opts Tool : Type.
Variable StreamExecTool :
  Opts -> Tool -> Reader * Reader * (World -> option error).
Variable StreamExecFile :
  string -> string -> Opts -> Reader * Reader * (World -> option error).
Variable StreamExecToolWithEvents :
  Opts -> Tool -> Reader * Reader * list (list ascii) * (World -> option error).
Variable StreamExecFileWithEvents :
  string -> string -> Opts
  -> Reader * Reader * list (list ascii) * (World -> option error).

Local Abbreviation emit := (writeServerSentEvent Marshal Write_fails flusher).
Local Abbreviation flush := (writeAndFlush Write_fails flusher).
Local Abbreviation finish :=
  (waitAndFinishStream Marshal Quote Now Write_fails flusher).
Local Abbreviation go := (run Marshal Write_fails flusher).
Local Abbreviation loop :=
  (streamEvents_loop Marshal Unmarshal Sprintv Write_fails flusher).
Local Abbreviation frame := (sse Marshal).
Local Abbreviation drain :=
  (streamEvents Marshal Unmarshal Sprintv Write_fails flusher).
Local Abbreviation plain :=
  (processOutputStream Marshal Quote Now Write_fails flusher).
Local Abbreviation eventsMode :=
  (processEventStreamOutput Marshal Unmarshal Sprintv Quote Now
     Write_fails flusher).
Local Abbreviation trace := (written Write_fails flusher).

Lemma written_app (ps qs : list string) :
  forall tr, trace tr (ps ++ qs) = trace tr ps ++ trace (tr ++ trace tr ps) qs.
Proof.
  induction ps as [|p ps IH]; intros tr; simpl.
  - now rewrite app_nil_r.
  - rewrite IH, <- !app_assoc. simpl. reflexivity.
Qed.

Lemma written_body (ps : list string) :
  forall tr, forallb isBody (trace tr ps) = true.
Proof.
  induction ps as [|p ps IH]; intros tr; simpl; [reflexivity|].
  rewrite forallb_app, IH, andb_true_r.
  destruct (Write_fails tr p); [|destruct flusher]; reflexivity.
Qed.

Lemma writes_written (ps : list string) :
  forall tr, writes (trace tr ps) = ps.
Proof.
  induction ps as [|p ps IH]; intros tr; simpl; [reflexivity|].
  rewrite writes_app, IH.
  destruct (Write_fails tr p); [|destruct flusher]; reflexivity.
Qed.

Lemma written_flushed (ps : list string) :
  (forall tr p, Write_fails tr p = false) -> flusher = true ->
  forall tr, trace tr ps = flat_map flushed ps.
Proof.
  intros HW HF. induction ps as [|p ps IH]; intros tr; [reflexivity|].
  cbn [written flat_map]. rewrite IH, HW, HF. reflexivity.
Qed.

Lemma resp_flush_written w p : resp (flush w p) = resp w ++ trace (resp w) [p].
Proof.
  unfold writeAndFlush. simpl.
  destruct (Write_fails (resp w) p); [|destruct flusher]; simpl;
    rewrite <- ?app_assoc; reflexivity.
Qed.

Lemma resp_emit_written w event :
  resp (emit w event) = resp w ++ trace (resp w) (frame event).
Proof.
  unfold writeServerSentEvent, sse.
  destruct (Marshal event) as [ev|err]; simpl.
  - apply resp_flush_written.
  - now rewrite app_nil_r.
Qed.

Lemma resp_go_written acts :
  forall w, resp (go acts w)
            = resp w ++ trace (resp w) (flat_map (sent Marshal) acts).
Proof.
  unfold run.
  induction acts as [|a acts IH]; intros w; simpl.
  - now rewrite app_nil_r.
  - rewrite IH, written_app, app_assoc.
    destruct a as [event|lv m at']; simpl.
    + now rewrite resp_emit_written.
    + now rewrite app_nil_r.
Qed.

Lemma resp_finish_written w stdErr wait :
  resp (finish w stdErr wait)
  = resp w
    ++ trace (resp w)
         ((if String.eqb (execErrOutput Quote stdErr (wait w)) "" then []
           else frame (VMap [("time", VTime (Now (ticks w)));
                             ("err", VString (execErrOutput Quote stdErr
                                                (wait w)))]))
          ++ [DONE]).
Proof.
  unfold waitAndFinishStream. rewrite resp_log, resp_flush_written.
  destruct (String.eqb (execErrOutput Quote stdErr (wait w)) ""); simpl negb;
    cbv iota.
  - reflexivity.
  - unfold time_Now. cbv beta iota zeta.
    rewrite resp_emit_written. simpl resp.
    rewrite written_app, <- app_assoc. reflexivity.
Qed.

Lemma resp_sendAll_written (es : list MapAny) :
  forall w, exists ps,
    resp (sendAll Marshal Write_fails flusher es w)
    = resp w ++ trace (resp w) ps
    /\ forall p, In p ps -> exists m, In p (frame (VMap m)).
Proof.
  unfold sendAll.
  induction es as [|e es IH]; intros w; simpl.
  - exists []. simpl. rewrite app_nil_r. split; [reflexivity | contradiction].
  - destruct (IH (emit w (VMap e))) as [ps [H P]].
    exists (frame (VMap e) ++ ps).
    rewrite H, resp_emit_written, written_app, app_assoc.
    split; [reflexivity|].
    intros p Hin. apply in_app_or in Hin. destruct Hin as [Hin|Hin].
    + now exists e.
    + now apply P.
Qed.

Lemma resp_loop_written (events : list (list ascii)) :
  forall lastRunID eventBuffer w, exists ps,
    resp (snd (loop events lastRunID eventBuffer w))
    = resp w ++ trace (resp w) ps
    /\ forall p, In p ps -> exists m, In p (frame (VMap m)).
Proof.
  induction events as [|bytes rest IH]; intros lastRunID eventBuffer w.
  - exists []. simpl. rewrite app_nil_r. split; [reflexivity | contradiction].
  - cbn [streamEvents_loop].
    destruct (Nat.eqb (length bytes) 0); [apply IH|].
    destruct (Unmarshal bytes) as [e|err].
    2: { destruct (IH lastRunID eventBuffer
                     (log w ERROR "failed to unmarshal event"
                        [("error", Error err); ("event", Text bytes)]))
           as [ps [H P]].
         exists ps. split; [exact H | exact P]. }
    destruct ((Nat.ltb 0 (length eventBuffer)
               || eqString (index e "type") callTypeConfirm)
              && negb (eqString (index e "runID") lastRunID)); [apply IH|].
    destruct (resp_sendAll_written eventBuffer w) as [ps1 [H1 P1]].
    unfold sendAll in H1.
    destruct (IH (Sprint Sprintv (index e "runID")) []
                (emit (fold_left (fun w ev => emit w (VMap ev)) eventBuffer w)
                   (VMap e))) as [ps2 [H2 P2]].
    exists (ps1 ++ frame (VMap e) ++ ps2).
    rewrite H2, resp_emit_written, H1, !written_app, <- !app_assoc.
    split; [reflexivity|].
    intros p Hin. apply in_app_or in Hin. destruct Hin as [Hin|Hin].
    + now apply P1.
    + apply in_app_or in Hin. destruct Hin as [Hin|Hin].
      * now exists e.
      * now apply P2.
Qed.

Lemma resp_drain_written w events :
  exists ps,
    resp (drain w events) = resp w ++ trace (resp w) ps
    /\ forall p, In p ps -> exists m, In p (frame (VMap m)).
Proof.
  unfold streamEvents.
  destruct (resp_loop_written events "" [] (log w DEBUG "receiving events" []))
    as [ps [H P]].
  destruct (loop events "" [] (log w DEBUG "receiving events" []))
    as [[l b] w']. exists ps. split; [exact H | exact P].
Qed.

Lemma resp_setStreamingHeaders w :
  resp (setStreamingHeaders w) = resp w ++ headers.
Proof.
  unfold setStreamingHeaders, headers. simpl. now rewrite <- !app_assoc.
Qed.

Lemma frame_is_sse (event : any) (p : string) :
  In p (frame event) -> exists b, p = "data: " +++ b +++ nlnl.
Proof.
  unfold sse. destruct (Marshal event) as [b|e]; [|contradiction].
  intros [H|[]]. now exists b.
Qed.

Lemma error_frame_is_sse stdErr err t p :
  In p (if String.eqb (execErrOutput Quote stdErr err) "" then []
        else frame (VMap [("time", VTime t);
                          ("err", VString (execErrOutput Quote stdErr err))])) ->
  exists b, p = "data: " +++ b +++ nlnl.
Proof.
  destruct (String.eqb (execErrOutput Quote stdErr err) "");
    [contradiction | apply frame_is_sse].
Qed.

(** The calls of a plain session: the headers, then the payloads of the
    actions in the order of the schedule and of the finalizer. *)
Lemma plain_trace sched w stdout stderr wait :
  exists w' ps,
    plain sched w stdout stderr wait = Some w'
    /\ resp w' = resp w ++ headers
                 ++ trace (resp w ++ headers) (ps ++ [DONE])
    /\ Forall (fun p => exists b, p = "data: " +++ b +++ nlnl) ps.
Proof.
  unfold processOutputStream. rewrite !streamOutput_frames.
  set (acts := interleave sched
                 (flat_map (relay "stdout") (frames (reads stdout)))
                 (flat_map (relay "stderr") (frames (reads stderr)))).
  set (w1 := go acts (setStreamingHeaders w)).
  set (tail := if String.eqb (execErrOutput Quote "" (wait w1)) "" then []
               else frame (VMap [("time", VTime (Now (ticks w1)));
                                 ("err", VString (execErrOutput Quote ""
                                                    (wait w1)))])).
  exists (finish w1 "" wait), (flat_map (sent Marshal) acts ++ tail).
  split; [reflexivity|]. split.
  - rewrite resp_finish_written. fold tail. unfold w1.
    rewrite resp_go_written, resp_setStreamingHeaders.
    rewrite <- !app_assoc. f_equal. f_equal.
    rewrite (written_app (flat_map (sent Marshal) acts)), app_assoc.
    reflexivity.
  - apply Forall_forall. intros p Hin.
    apply in_app_or in Hin. destruct Hin as [Hin|Hin].
    + apply in_flat_map in Hin. destruct Hin as [a [_ Hp]].
      destruct a as [event|lv m at']; [|contradiction].
      now apply frame_is_sse with (event := event).
    + now apply error_frame_is_sse in Hin.
Qed.

(** The calls of an events-mode session whose reads succeed. *)
Lemma eventsMode_trace w stdout stderr events wait :
  rerr stdout = None -> rerr stderr = None ->
  exists ps,
    resp (eventsMode w stdout stderr events wait)
    = resp w ++ headers ++ trace (resp w ++ headers) (ps ++ [DONE])
    /\ Forall (fun p => exists b, p = "data: " +++ b +++ nlnl) ps.
Proof.
  intros Hout Herr.
  destruct (eventsMode_success Marshal Unmarshal Sprintv Quote Now
              Write_fails flusher w stdout stderr events wait Hout Herr)
    as [E T3].
  cbv zeta in E, T3. rewrite E. clear E.
  rewrite resp_finish_written, T3. clear T3.
  rewrite resp_emit_written. simpl resp.
  rewrite resp_emit_written. simpl resp.
  destruct (resp_drain_written (setStreamingHeaders w) events) as [ps [Hd Hp]].
  rewrite Hd, resp_setStreamingHeaders.
  match goal with
  | |- exists _,
        ((((_ ++ _) ++ _) ++ trace _ ?f1) ++ trace _ ?f2)
        ++ trace _ (?f3 ++ _) = _ /\ _ =>
      exists (ps ++ f1 ++ f2 ++ f3); split
  end.
  - rewrite <- !app_assoc. f_equal. f_equal.
    rewrite !written_app, <- !app_assoc. reflexivity.
  - apply Forall_forall. intros p Hin.
    repeat (apply in_app_or in Hin; destruct Hin as [Hin|Hin]).
    + destruct (Hp _ Hin) as [m Hm]. now apply frame_is_sse in Hm.
    + now apply frame_is_sse in Hin.
    + now apply frame_is_sse in Hin.
    + now apply error_frame_is_sse in Hin.
Qed.

Local Abbreviation toolStream :=
  (execToolStream Marshal Quote Now Write_fails flusher Opts Tool
     StreamExecTool).
Local Abbreviation fileStream :=
  (execFileStream Marshal Quote Now Write_fails flusher Opts StreamExecFile).
Local Abbreviation toolEvents :=
  (execToolStreamWithEvents Marshal Unmarshal Sprintv Quote Now Write_fails
     flusher Opts Tool StreamExecToolWithEvents).
Local Abbreviation fileEvents :=
  (execFileStreamWithEvents Marshal Unmarshal Sprintv Quote Now Write_fails
     flusher Opts StreamExecFileWithEvents).

Lemma resp_writeError w code err :
  exists body,
    resp (writeError Marshal w code err)
    = resp w ++ [WriteHeader code; Write body].
Proof.
  unfold writeError.
  destruct (Marshal (VMap [("error", VString (Error err))])) as [b|e];
    eexists; simpl; rewrite <- app_assoc; reflexivity.
Qed.

Lemma plain_headers_tail sched w stdout stderr wait :
  exists w' tl,
    plain sched w stdout stderr wait = Some w'
    /\ resp w' = resp w ++ headers ++ tl
    /\ forallb isBody tl = true.
Proof.
  destruct (plain_trace sched w stdout stderr wait) as [w' [ps [H [R _]]]].
  exists w', (trace (resp w ++ headers) (ps ++ [DONE])).
  split; [exact H|]. split; [exact R | apply written_body].
Qed.

Lemma eventsMode_headers_tail w stdout stderr events wait :
  exists tl,
    resp (eventsMode w stdout stderr events wait) = resp w ++ headers ++ tl
    /\ (rerr stdout = None -> rerr stderr = None -> forallb isBody tl = true).
Proof.
  destruct (rerr stdout) as [e1|] eqn:Hout.
  - unfold processEventStreamOutput, ReadAll. rewrite Hout.
    destruct (resp_writeError (drain (setStreamingHeaders w) events) 500
                (wrapError ("failed to read stdout: " +++ Error e1) e1))
      as [body Hb].
    destruct (resp_drain_written (setStreamingHeaders w) events)
      as [ps [Hd _]].
    rewrite Hb, Hd, resp_setStreamingHeaders.
    eexists. split; [rewrite <- !app_assoc; reflexivity | discriminate].
  - destruct (rerr stderr) as [e2|] eqn:Herr.
    + unfold processEventStreamOutput, ReadAll. rewrite Hout, Herr.
      destruct (resp_writeError (drain (setStreamingHeaders w) events) 500
                  (wrapError ("failed to read stderr: " +++ Error e2) e2))
        as [body Hb].
      destruct (resp_drain_written (setStreamingHeaders w) events)
        as [ps [Hd _]].
      rewrite Hb, Hd, resp_setStreamingHeaders.
      eexists. split; [rewrite <- !app_assoc; reflexivity | discriminate].
    + destruct (eventsMode_trace w stdout stderr events wait Hout Herr)
        as [ps [R _]].
      exists (trace (resp w ++ headers) (ps ++ [DONE])).
      split; [exact R | intros _ _; apply written_body].
Qed.

(** X5. In a plain session, whatever the schedule of the two
    goroutines, the actions taken for stdout are those of its frames in
    the order of the stream, and so are those for stderr: the actions
    that run are a merge of the two lists, nothing lost or added. *)
Theorem X5_plain_keeps_each_stream_in_order (sched : list bool) (w : World)
    (stdout stderr : Reader) (wait : World -> option error) :
  exists acts,
    plain sched w stdout stderr wait
    = Some (finish (go acts (setStreamingHeaders w)) "" wait)
    /\ filter (fromStream "stdout") acts
       = flat_map (relay "stdout") (frames (reads stdout))
    /\ filter (fromStream "stderr") acts
       = flat_map (relay "stderr") (frames (reads stderr))
    /\ length acts
       = length (flat_map (relay "stdout") (frames (reads stdout)))
         + length (flat_map (relay "stderr") (frames (reads stderr))).
Proof.
  exists (interleave sched
            (flat_map (relay "stdout") (frames (reads stdout)))
            (flat_map (relay "stderr") (frames (reads stderr)))).
  split; [|split; [|split]].
  - unfold processOutputStream. now rewrite !streamOutput_frames.
  - apply interleave_filter_l.
    + exact (fromStream_relay "stdout" "stdout" (frames (reads stdout))).
    + exact (fromStream_relay "stderr" "stdout" (frames (reads stderr))).
  - apply interleave_filter_r.
    + exact (fromStream_relay "stdout" "stderr" (frames (reads stdout))).
    + exact (fromStream_relay "stderr" "stderr" (frames (reads stderr))).
  - apply interleave_length.
Qed.

(** X6. Each of the four streaming handlers first sets the three
    streaming headers on the response.  In plain mode every later call
    is a write or a flush (no status code is ever sent); in events mode
    the same holds when stdout and stderr are read to their end. *)
Theorem X6_stream_handlers_set_headers_first :
  (forall sched w opts tool,
      exists w' tl,
        toolStream sched w opts tool = Some w'
        /\ resp w' = resp w ++ headers ++ tl
        /\ forallb isBody tl = true)
  /\ (forall sched w opts path input,
        exists w' tl,
          fileStream sched w opts path input = Some w'
          /\ resp w' = resp w ++ headers ++ tl
          /\ forallb isBody tl = true)
  /\ (forall w opts tool,
        exists tl,
          resp (toolEvents w opts tool)
          = resp w ++ headers ++ tl
          /\ let '(stdout, stderr, _, _) := StreamExecToolWithEvents opts tool in
             rerr stdout = None -> rerr stderr = None ->
             forallb isBody tl = true)
  /\ (forall w opts path input,
        exists tl,
          resp (fileEvents w opts path input)
          = resp w ++ headers ++ tl
          /\ let '(stdout, stderr, _, _) :=
               StreamExecFileWithEvents path input opts in
             rerr stdout = None -> rerr stderr = None ->
             forallb isBody tl = true).
Proof.
  split; [|split; [|split]].
  - intros sched w opts tool. unfold execToolStream.
    destruct (StreamExecTool opts tool) as [[stdout stderr] wait].
    apply plain_headers_tail.
  - intros sched w opts path input. unfold execFileStream.
    destruct (StreamExecFile path input opts) as [[stdout stderr] wait].
    apply plain_headers_tail.
  - intros w opts tool. unfold execToolStreamWithEvents.
    destruct (StreamExecToolWithEvents opts tool)
      as [[[stdout stderr] events] wait].
    apply eventsMode_headers_tail.
  - intros w opts path input. unfold execFileStreamWithEvents.
    destruct (StreamExecFileWithEvents path input opts)
      as [[[stdout stderr] events] wait].
    apply eventsMode_headers_tail.
Qed.


Lemma writes_headers_trace (tr : list Call) (ps : list string) :
  writes (tr ++ headers ++ trace (tr ++ headers) ps) = writes tr ++ ps.
Proof. rewrite !writes_app, writes_written. reflexivity. Qed.

(** X8. Every payload that a plain session, or an events-mode session
    whose reads succeed, writes is a server-sent-event frame: the text
    ["data: "], a body, and two line feeds; the closing frame is the
    last of them. *)
Theorem X8_every_write_is_a_frame :
  (forall sched w stdout stderr wait,
      exists w' ps,
        plain sched w stdout stderr wait = Some w'
        /\ writes (resp w') = writes (resp w) ++ ps ++ [DONE]
        /\ Forall (fun p => exists b, p = "data: " +++ b +++ nlnl)
             (ps ++ [DONE]))
  /\ (forall w stdout stderr events wait,
        rerr stdout = None -> rerr stderr = None ->
        exists ps,
          writes (resp (eventsMode w stdout stderr events wait))
          = writes (resp w) ++ ps ++ [DONE]
          /\ Forall (fun p => exists b, p = "data: " +++ b +++ nlnl)
               (ps ++ [DONE])).
Proof.
  assert (HD : Forall (fun p => exists b, p = "data: " +++ b +++ nlnl) [DONE])
    by (constructor; [now exists "[DONE]" | constructor]).
  split.
  - intros sched w stdout stderr wait.
    destruct (plain_trace sched w stdout stderr wait) as [w' [ps [H [R F]]]].
    exists w', ps. split; [exact H|]. split.
    + now rewrite R, writes_headers_trace.
    + apply Forall_app. now split.
  - intros w stdout stderr events wait Hout Herr.
    destruct (eventsMode_trace w stdout stderr events wait Hout Herr)
      as [ps [R F]].
    exists ps. split.
    + now rewrite R, writes_headers_trace.
    + apply Forall_app. now split.
Qed.

(** X9. In events mode, when stdout cannot be read to its end, the
    session ends with the status code 500 and one body, written after
    the headers and after the frames of the events.  Stderr is not
    read, [wait] is not called and the clock is not read: the result
    is the same for any other stderr and [wait]. *)
Theorem X9_stdout_read_failure (w : World) (stdout stderr : Reader)
    (events : list (list ascii)) (wait : World -> option error) (e : error) :
  rerr stdout = Some e ->
  eventsMode w stdout stderr events wait
  = writeError Marshal (drain (setStreamingHeaders w) events) 500
      (wrapError ("failed to read stdout: " +++ Error e) e)
  /\ (exists body,
         resp (eventsMode w stdout stderr events wait)
         = resp (drain (setStreamingHeaders w) events)
           ++ [WriteHeader 500; Write body])
  /\ ticks (eventsMode w stdout stderr events wait) = ticks w
  /\ forall stderr' wait',
       eventsMode w stdout stderr' events wait'
       = eventsMode w stdout stderr events wait.
Proof.
  intros H.
  assert (E : forall stderr' wait',
             eventsMode w stdout stderr' events wait'
             = writeError Marshal (drain (setStreamingHeaders w) events) 500
                 (wrapError ("failed to read stdout: " +++ Error e) e))
    by (intros; unfold processEventStreamOutput, ReadAll; now rewrite H).
  split; [apply E|]. split; [|split].
  - rewrite E. apply resp_writeError.
  - rewrite E. unfold writeError.
    destruct (Marshal _); simpl; now rewrite ticks_drain.
  - intros stderr' wait'. now rewrite !E.
Qed.

(** X10. In events mode, when stdout is read to its end and stderr
    cannot be, what was read from stdout is dropped: the session ends
    with the status code 500 and one body, sends neither output event
    nor closing frame, and is the same for any other stdout that ends
    and any other [wait]. *)
Theorem X10_stderr_read_failure (w : World) (stdout stderr : Reader)
    (events : list (list ascii)) (wait : World -> option error) (e : error) :
  rerr stdout = None ->
  rerr stderr = Some e ->
  eventsMode w stdout stderr events wait
  = writeError Marshal (drain (setStreamingHeaders w) events) 500
      (wrapError ("failed to read stderr: " +++ Error e) e)
  /\ (exists body,
         resp (eventsMode w stdout stderr events wait)
         = resp (drain (setStreamingHeaders w) events)
           ++ [WriteHeader 500; Write body])
  /\ forall stdout' wait',
       rerr stdout' = None ->
       eventsMode w stdout' stderr events wait'
       = eventsMode w stdout stderr events wait.
Proof.
  intros Hout Herr.
  assert (E : forall stdout' wait',
             rerr stdout' = None ->
             eventsMode w stdout' stderr events wait'
             = writeError Marshal (drain (setStreamingHeaders w) events) 500
                 (wrapError ("failed to read stderr: " +++ Error e) e))
    by (intros stdout' wait' H'; unfold processEventStreamOutput, ReadAll;
        now rewrite H', Herr).
  split; [now apply E|]. split.
  - rewrite (E _ _ Hout). apply resp_writeError.
  - intros stdout' wait' H'. now rewrite (E _ _ H'), (E _ _ Hout).
Qed.

End Traces.

(** ** Further properties: the loop of streamEvents *)

Section Reorderer.

Variable Marshal : any -> result string.
Variable Unmarshal : list ascii -> result MapAny.
Variable Sprintv : any -> string.
Variable Write_fails : list Call -> string -> bool.
Variable flusher : bool.

Local Abbreviation emit := (writeServerSentEvent Marshal Write_fails flusher).
Local Abbreviation loop :=
  (streamEvents_loop Marshal Unmarshal Sprintv Write_fails flusher).
Local Abbreviation drain :=
  (streamEvents Marshal Unmarshal Sprintv Write_fails flusher).
Local Abbreviation events_of := (decoded Unmarshal).
Local Abbreviation send := (sendAll Marshal Write_fails flusher).
Local Abbreviation decide := (reorder Sprintv).

Lemma resp_send_ext (es : list MapAny) :
  forall w1 w2, resp w1 = resp w2 -> resp (send es w1) = resp (send es w2).
Proof.
  unfold sendAll.
  induction es as [|e es IH]; intros w1 w2 H; [exact H|].
  simpl. apply IH. now apply resp_emit_ext.
Qed.

Lemma send_app (a b : list MapAny) (w : World) :
  send (a ++ b) w = send b (send a w).
Proof. unfold sendAll. apply fold_left_app. Qed.

(** The loop follows [reorder] on the events that decode. *)
Lemma loop_reorder (events : list (list ascii)) :
  forall lastRunID eventBuffer w,
    exists w',
      loop events lastRunID eventBuffer w
      = (fst (snd (decide (events_of events) lastRunID eventBuffer)),
         snd (snd (decide (events_of events) lastRunID eventBuffer)), w')
      /\ resp w'
         = resp (send (fst (decide (events_of events) lastRunID eventBuffer)) w).
Proof.
  induction events as [|bytes rest IH]; intros lastRunID eventBuffer w.
  - exists w. split; reflexivity.
  - cbn [streamEvents_loop decoded].
    destruct (Nat.eqb (length bytes) 0); [apply IH|].
    destruct (Unmarshal bytes) as [e|err].
    2: { destruct (IH lastRunID eventBuffer
                     (log w ERROR "failed to unmarshal event"
                        [("error", Error err); ("event", Text bytes)]))
           as [w' [H R]].
         exists w'. split; [exact H|]. rewrite R.
         now apply resp_send_ext. }
    cbn [reorder]. unfold isConfirm.
    destruct ((Nat.ltb 0 (length eventBuffer)
               || eqString (index e "type") callTypeConfirm)
              && negb (eqString (index e "runID") lastRunID)); [apply IH|].
    destruct (IH (Sprint Sprintv (index e "runID")) []
                (emit (fold_left (fun w ev => emit w (VMap ev)) eventBuffer w)
                   (VMap e))) as [w' [H R]].
    exists w'.
    destruct (decide (events_of rest) (Sprint Sprintv (index e "runID")) [])
      as [sent st].
    split; [exact H|]. rewrite R. cbn [fst].
    change (eventBuffer ++ e :: sent) with (eventBuffer ++ [e] ++ sent).
    rewrite !send_app. reflexivity.
Qed.

Lemma reorder_keeps_order (es : list MapAny) :
  forall lastRunID eventBuffer,
    fst (decide es lastRunID eventBuffer)
    ++ snd (snd (decide es lastRunID eventBuffer))
    = eventBuffer ++ es.
Proof.
  induction es as [|e rest IH]; intros lastRunID eventBuffer; cbn [reorder].
  - simpl. now rewrite app_nil_r.
  - destruct ((Nat.ltb 0 (length eventBuffer) || isConfirm e)
              && negb (eqString (index e "runID") lastRunID)).
    + rewrite IH, <- app_assoc. reflexivity.
    + specialize (IH (Sprint Sprintv (index e "runID")) []).
      destruct (decide rest (Sprint Sprintv (index e "runID")) [])
        as [sent st].
      cbn [fst snd] in *. rewrite <- app_assoc. simpl.
      now rewrite IH.
Qed.

Lemma reorder_without_confirm (es : list MapAny) :
  forallb (fun e => negb (isConfirm e)) es = true ->
  forall lastRunID,
    fst (decide es lastRunID []) = es
    /\ snd (snd (decide es lastRunID [])) = [].
Proof.
  induction es as [|e rest IH]; intros H lastRunID; cbn [reorder].
  - split; reflexivity.
  - cbn [forallb] in H. apply andb_true_iff in H. destruct H as [He Hr].
    apply negb_true_iff in He. rewrite He. cbn [length Nat.ltb Nat.leb orb andb].
    destruct (IH Hr (Sprint Sprintv (index e "runID"))) as [H1 H2].
    destruct (decide rest (Sprint Sprintv (index e "runID")) []) as [sent st].
    cbn [fst snd] in *. split; [now rewrite H1 | exact H2].
Qed.

(** X11. The loop of [streamEvents] neither reorders nor repeats
    events: the events it sends, followed by those left in the buffer,
    are the events in the buffer at the start followed by the events
    decoded from the lines, in that order.  The calls it makes on the
    response writer are those of sending these events one by one. *)
Theorem X11_events_are_sent_in_arrival_order (events : list (list ascii))
    (lastRunID : string) (eventBuffer : list MapAny) (w : World) :
  exists sent lastRunID' eventBuffer' w',
    loop events lastRunID eventBuffer w = (lastRunID', eventBuffer', w')
    /\ sent ++ eventBuffer' = eventBuffer ++ events_of events
    /\ resp w' = resp (send sent w).
Proof.
  destruct (loop_reorder events lastRunID eventBuffer w) as [w' [H R]].
  exists (fst (decide (events_of events) lastRunID eventBuffer)),
         (fst (snd (decide (events_of events) lastRunID eventBuffer))),
         (snd (snd (decide (events_of events) lastRunID eventBuffer))), w'.
  split; [exact H|]. split; [apply reorder_keeps_order | exact R].
Qed.

(** X12. A stream in which no event is of type [callConfirm] passes
    through: [streamEvents] sends every decoded event, in order, and
    the buffer stays empty. *)
Theorem X12_no_confirm_passes_through (events : list (list ascii))
    (w : World) :
  forallb (fun e => negb (isConfirm e)) (events_of events) = true ->
  resp (drain w events) = resp (send (events_of events) w)
  /\ forall lastRunID w0,
       snd (fst (loop events lastRunID [] w0)) = [].
Proof.
  intros H. split.
  - unfold streamEvents.
    destruct (loop_reorder events "" [] (log w DEBUG "receiving events" []))
      as [w' [Hl R]].
    rewrite Hl. simpl. rewrite R.
    destruct (reorder_without_confirm _ H "") as [H1 _]. rewrite H1.
    now apply resp_send_ext.
  - intros lastRunID w0.
    destruct (loop_reorder events lastRunID [] w0) as [w' [Hl _]].
    rewrite Hl. simpl.
    now destruct (reorder_without_confirm _ H lastRunID) as [_ H2].
Qed.

(** X13. Empty lines and lines that do not decode change neither what
    [streamEvents] writes nor the state of its loop: two lists of lines
    with the same decoded events give the same calls on the response
    writer, the same [lastRunID] and the same buffer. *)
Theorem X13_blank_and_malformed_lines_are_skipped
    (events1 events2 : list (list ascii)) :
  decoded Unmarshal events1 = decoded Unmarshal events2 ->
  (forall w, resp (drain w events1) = resp (drain w events2))
  /\ forall lastRunID eventBuffer w1 w2,
       fst (loop events1 lastRunID eventBuffer w1)
       = fst (loop events2 lastRunID eventBuffer w2).
Proof.
  intros H. split.
  - intros w. unfold streamEvents.
    destruct (loop_reorder events1 "" [] (log w DEBUG "receiving events" []))
      as [w1 [H1 R1]].
    destruct (loop_reorder events2 "" [] (log w DEBUG "receiving events" []))
      as [w2 [H2 R2]].
    rewrite H1, H2. simpl. rewrite R1, R2, H. reflexivity.
  - intros lastRunID eventBuffer w1 w2.
    destruct (loop_reorder events1 lastRunID eventBuffer w1) as [w1' [H1 _]].
    destruct (loop_reorder events2 lastRunID eventBuffer w2) as [w2' [H2 _]].
    rewrite H1, H2, H. reflexivity.
Qed.

(** X14. A [callConfirm] event whose run identifier is a string other
    than [lastRunID] is held back, with nothing written; the next event
    that carries the same run identifier releases it: the confirm event
    is sent first, that event after it, and the buffer is empty
    again. *)
Theorem X14_confirm_released_by_same_run (b1 b2 : list ascii)
    (e1 e2 : MapAny) (r lastRunID : string) (w : World) :
  Nat.eqb (length b1) 0 = false ->
  Nat.eqb (length b2) 0 = false ->
  Unmarshal b1 = Ok e1 ->
  Unmarshal b2 = Ok e2 ->
  index e1 "type" = VString callTypeConfirm ->
  index e1 "runID" = VString r ->
  String.eqb r lastRunID = false ->
  index e2 "runID" = VString r ->
  loop [b1] lastRunID [] w = (r, [e1], w)
  /\ loop [b1; b2] lastRunID [] w
     = (r, [], emit (emit w (VMap e1)) (VMap e2)).
Proof.
  intros N1 N2 U1 U2 T1 R1 D R2.
  assert (S1 : forall rest,
             loop (b1 :: rest) lastRunID [] w = loop rest r [e1] w).
  { intros rest. cbn [streamEvents_loop]. rewrite N1, U1, T1, R1.
    cbn [eqString Sprint]. rewrite D, String.eqb_refl. reflexivity. }
  split.
  - now rewrite S1.
  - rewrite S1. cbn [streamEvents_loop]. rewrite N2, U2, R2.
    cbn [eqString Sprint]. rewrite String.eqb_refl.
    cbn [negb andb]. rewrite andb_false_r. reflexivity.
Qed.

(** X16. Once the buffer holds an event, events are released only by
    an event that carries the run identifier stored for the event
    before it: as long as every event changes the run, the loop of
    [streamEvents] adds them all to the buffer and calls nothing on the
    response writer. *)
Theorem X16_changing_runs_are_never_released (events : list (list ascii))
    (lastRunID : string) (eventBuffer : list MapAny) (w : World) :
  Nat.ltb 0 (length eventBuffer) = true ->
  changesRun Sprintv lastRunID (events_of events) = true ->
  exists lastRunID' w',
    loop events lastRunID eventBuffer w
    = (lastRunID', eventBuffer ++ events_of events, w')
    /\ resp w' = resp w.
Proof.
  revert lastRunID eventBuffer w.
  induction events as [|bytes rest IH]; intros lastRunID eventBuffer w Hb Hc.
  - exists lastRunID, w. simpl. now rewrite app_nil_r.
  - cbn [streamEvents_loop decoded] in *.
    destruct (Nat.eqb (length bytes) 0); [now apply IH|].
    destruct (Unmarshal bytes) as [e|err].
    + cbn [changesRun] in Hc. apply andb_true_iff in Hc.
      destruct Hc as [He Hr]. rewrite Hb, He. cbn [orb andb].
      destruct (IH (Sprint Sprintv (index e "runID")) (eventBuffer ++ [e]) w)
        as [l' [w' [Hl Hw]]].
      * rewrite length_app. simpl. apply Nat.ltb_lt. lia.
      * exact Hr.
      * exists l', w'. rewrite Hl, <- app_assoc. now split.
    + destruct (IH lastRunID eventBuffer
                  (log w ERROR "failed to unmarshal event"
                     [("error", Error err); ("event", Text bytes)]) Hb Hc)
        as [l' [w' [Hl Hw]]].
      exists l', w'. now split.
Qed.

End Reorderer.

(** ** Further properties: the handlers that answer in one piece *)

Section OneShot.

Variable Marshal : any -> result string.
Variable Opts Tool : Type.
Variable ParseTool : string -> result any.
Variable Parse : string -> Opts -> result any.
Variable ExecTool : Opts -> Tool -> result string.
Variable ExecFile : string -> string -> Opts -> result string.

Local Abbreviation respond := (writeResponse Marshal).
Local Abbreviation encodes v :=
  (match Marshal v with Ok _ => true | Err _ => false end).

Lemma resp_writeError_500 w err :
  exists body,
    resp (writeError Marshal w 500 err)
    = resp w ++ [WriteHeader 500] ++ [Write body].
Proof.
  unfold writeError.
  destruct (Marshal (VMap [("error", VString (Error err))])) as [b|e];
    eexists; simpl; rewrite <- app_assoc; reflexivity.
Qed.

Lemma resp_writeResponse w v :
  exists body,
    resp (respond w v)
    = resp w ++ (if encodes v then [] else [WriteHeader 500]) ++ [Write body]
    /\ forall b, Marshal v = Ok b -> body = b.
Proof.
  unfold writeResponse. destruct (Marshal v) as [b|e].
  - exists b. split; [reflexivity|]. intros b' H. now injection H.
  - destruct (resp_writeError_500 w
                (wrapError ("failed to marshal response: " +++ Error e) e))
      as [body H].
    exists body. split; [exact H | discriminate].
Qed.

(** X15. [writeResponse], [execTool], [execFile] and [parse] make
    exactly one write on the response, never flush and never set a
    header; the status code 500 is sent before the write exactly when
    the collaborator failed or its result has no encoding, and
    [writeResponse] writes the encoding itself when there is one. *)
Theorem X15_one_shot_handlers_write_one_body :
  (forall w v,
      exists body,
        resp (respond w v)
        = resp w ++ (if encodes v then [] else [WriteHeader 500])
          ++ [Write body]
        /\ forall b, Marshal v = Ok b -> body = b)
  /\ (forall w opts tool,
        exists body,
          resp (execTool Marshal Opts Tool ExecTool w opts tool)
          = resp w
            ++ (if match ExecTool opts tool with
                   | Ok out => encodes (VMap [("stdout", VString out)])
                   | Err _ => false
                   end
                then [] else [WriteHeader 500])
            ++ [Write body])
  /\ (forall w opts path input,
        exists body,
          resp (execFile Marshal Opts ExecFile w opts path input)
          = resp w
            ++ (if match ExecFile path input opts with
                   | Ok out => encodes (VMap [("stdout", VString out)])
                   | Err _ => false
                   end
                then [] else [WriteHeader 500])
            ++ [Write body])
  /\ (forall w opts path input,
        exists body,
          resp (parse Marshal Opts ParseTool Parse w opts path input)
          = resp w
            ++ (if match (if negb (String.eqb input "")
                          then ParseTool input else Parse path opts) with
                   | Ok out =>
                       encodes (VMap [("stdout", VMap [("nodes", out)])])
                   | Err _ => false
                   end
                then [] else [WriteHeader 500])
            ++ [Write body]).
Proof.
  assert (F : forall w err, exists body,
               resp (writeError Marshal w 500 err)
               = resp w ++ [WriteHeader 500] ++ [Write body])
    by exact resp_writeError_500.
  split; [exact resp_writeResponse|]. split; [|split].
  - intros w opts tool. unfold execTool.
    destruct (ExecTool opts tool) as [out|e].
    + destruct (resp_writeResponse w (VMap [("stdout", VString out)]))
        as [body [H _]]. now exists body.
    + destruct (F (log w ERROR "failed to execute tool" [("error", Error e)])
                  (wrapError ("failed to execute tool: " +++ Error e) e))
        as [body H]. now exists body.
  - intros w opts path input. unfold execFile.
    destruct (ExecFile path input opts) as [out|e].
    + destruct (resp_writeResponse w (VMap [("stdout", VString out)]))
        as [body [H _]]. now exists body.
    + destruct (F (log w ERROR "failed to execute file" [("error", Error e)])
                  (wrapError ("failed to execute file: " +++ Error e) e))
        as [body H]. now exists body.
  - intros w opts path input. unfold parse.
    destruct (if negb (String.eqb input "") then ParseTool input
              else Parse path opts) as [out|e].
    + destruct (resp_writeResponse
                  (log w DEBUG "parsing file"
                     [("file", path); ("input", input)])
                  (VMap [("stdout", VMap [("nodes", out)])]))
        as [body [H _]]. now exists body.
    + destruct (F (log (log w DEBUG "parsing file"
                          [("file", path); ("input", input)])
                     ERROR "failed to parse file" [("error", Error e)])
                  (wrapError ("failed to parse file: " +++ Error e) e))
        as [body H]. now exists body.
Qed.

End OneShot.

(** ** Worked examples for the further properties *)

Lemma X2_error_event_witness :
  Sample.waitError Sample.world0 = Some (errorString "signal: killed")
  /\ execErrOutput Sample.Quote "boom"
       (Some (errorString "signal: killed")) <> ""
  /\ ticks (Sample.waitAndFinishStream Sample.world0 "boom" Sample.waitError)
     = S (ticks Sample.world0).
Proof.
  destruct (X2_error_event_for_every_error
              Sample.Marshal Sample.Quote Sample.Now Sample.Write_fails
              Sample.flusher Sample.world0 "boom" Sample.waitError
              (errorString "signal: killed") eq_refl)
    as [Hm [_ [_ Ht]]].
  split; [reflexivity|]. split; [exact Hm | exact Ht].
Defined.

Lemma X3_wrapping_witness :
  Is_chain (ExitError 2 "exit status 2")
  || match As_chain (ExitError 2 "exit status 2") with
     | Some _ => true
     | None => false
     end = true
  /\ execErrOutput Sample.Quote "boom"
       (Some (wrapError "run: exit status 2" (ExitError 2 "exit status 2")))
     = execErrOutput Sample.Quote "boom" (Some (ExitError 2 "exit status 2")).
Proof.
  split; [reflexivity|].
  apply (X3_wrapping_keeps_the_message Sample.Quote "boom"
           "run: exit status 2" (ExitError 2 "exit status 2") eq_refl).
Defined.

Lemma X4_exit_error_witness :
  As_ExitError (Sample.exitError Sample.world0) = Some (2%Z, "exit status 2")
  /\ execErrOutput Sample.Quote "boom" (Sample.exitError Sample.world0)
     = "The tool call returned an exit code of " +++ fmt_d 2
       +++ " with message " +++ Sample.Quote "exit status 2"
       +++ " and output " +++ Sample.Quote "boom"
  /\ As_ExitError (Sample.joinedError Sample.world0)
     = Some (2%Z, "exit status 2")
  /\ execErrOutput Sample.Quote "boom" (Sample.joinedError Sample.world0)
     = "The tool call took too long to complete, aborting".
Proof.
  split; [reflexivity|]. split.
  - exact (proj1 (X4_exit_error_message
                    Sample.Marshal Sample.Quote Sample.Now Sample.Write_fails
                    Sample.flusher Sample.world0 "boom" Sample.exitError
                    2%Z "exit status 2" eq_refl)).
  - split; [reflexivity|].
    exact (proj1 (X4_exit_error_message
                    Sample.Marshal Sample.Quote Sample.Now Sample.Write_fails
                    Sample.flusher Sample.world0 "boom" Sample.joinedError
                    2%Z "exit status 2" eq_refl)).
Defined.


Lemma X9_stdout_failure_witness :
  rerr Sample.broken = Some (errorString "read |0: file already closed")
  /\ ticks (Sample.processEventStreamOutput Sample.world0 Sample.broken
              Sample.errs [Sample.line Sample.s1] Sample.success)
     = ticks Sample.world0
  /\ Sample.processEventStreamOutput Sample.world0 Sample.broken
       Sample.out [Sample.line Sample.s1] Sample.timeout
     = Sample.processEventStreamOutput Sample.world0 Sample.broken
         Sample.errs [Sample.line Sample.s1] Sample.success.
Proof.
  destruct (X9_stdout_read_failure
              Sample.Marshal Sample.Unmarshal Sample.Sprintv Sample.Quote
              Sample.Now Sample.Write_fails Sample.flusher Sample.world0
              Sample.broken Sample.errs [Sample.line Sample.s1]
              Sample.success (errorString "read |0: file already closed")
              eq_refl) as [_ [_ [Ht Hi]]].
  split; [reflexivity|]. split; [exact Ht | apply Hi].
Defined.

Lemma X10_stderr_failure_witness :
  rerr Sample.out = None
  /\ rerr Sample.badErrs = Some (errorString "read |0: file already closed")
  /\ rerr Sample.errs = None
  /\ Sample.processEventStreamOutput Sample.world0 Sample.errs
       Sample.badErrs [Sample.line Sample.s1] Sample.timeout
     = Sample.processEventStreamOutput Sample.world0 Sample.out
         Sample.badErrs [Sample.line Sample.s1] Sample.success.
Proof.
  destruct (X10_stderr_read_failure
              Sample.Marshal Sample.Unmarshal Sample.Sprintv Sample.Quote
              Sample.Now Sample.Write_fails Sample.flusher Sample.world0
              Sample.out Sample.badErrs [Sample.line Sample.s1]
              Sample.success (errorString "read |0: file already closed")
              eq_refl eq_refl) as [_ [_ Hi]].
  split; [reflexivity|]. split; [reflexivity|]. split; [reflexivity|].
  apply Hi. reflexivity.
Defined.

Lemma X12_pass_through_witness :
  forallb (fun e => negb (isConfirm e))
    (decoded Sample.Unmarshal [Sample.line Sample.s1; Sample.line Sample.s3])
  = true
  /\ resp (Sample.streamEvents Sample.world0
             [Sample.line Sample.s1; Sample.line Sample.s3])
     = resp (Sample.sendAll
               (decoded Sample.Unmarshal
                  [Sample.line Sample.s1; Sample.line Sample.s3])
               Sample.world0).
Proof.
  split; [reflexivity|].
  apply (X12_no_confirm_passes_through
           Sample.Marshal Sample.Unmarshal Sample.Sprintv Sample.Write_fails
           Sample.flusher [Sample.line Sample.s1; Sample.line Sample.s3]
           Sample.world0 eq_refl).
Defined.

Lemma X13_skipped_lines_witness :
  decoded Sample.Unmarshal
    [Sample.line Sample.s1; []; Sample.bytes "oops"; Sample.line Sample.s3]
  = decoded Sample.Unmarshal [Sample.line Sample.s1; Sample.line Sample.s3]
  /\ resp (Sample.streamEvents Sample.world0
             [Sample.line Sample.s1; []; Sample.bytes "oops";
              Sample.line Sample.s3])
     = resp (Sample.streamEvents Sample.world0
               [Sample.line Sample.s1; Sample.line Sample.s3]).
Proof.
  split; [reflexivity|].
  apply (X13_blank_and_malformed_lines_are_skipped
           Sample.Marshal Sample.Unmarshal Sample.Sprintv Sample.Write_fails
           Sample.flusher
           [Sample.line Sample.s1; []; Sample.bytes "oops";
            Sample.line Sample.s3]
           [Sample.line Sample.s1; Sample.line Sample.s3] eq_refl).
Defined.

Lemma X14_release_witness :
  Sample.Unmarshal (Sample.line Sample.s2) = Ok Sample.s2
  /\ Sample.Unmarshal (Sample.line Sample.s1) = Ok Sample.s1
  /\ Sample.streamEvents_loop [Sample.line Sample.s2] "" [] Sample.world0
     = ("1", [Sample.s2], Sample.world0)
  /\ Sample.streamEvents_loop
       [Sample.line Sample.s2; Sample.line Sample.s1] "" [] Sample.world0
     = ("1", [],
        Sample.writeServerSentEvent
          (Sample.writeServerSentEvent Sample.world0 (VMap Sample.s2))
          (VMap Sample.s1)).
Proof.
  split; [reflexivity|]. split; [reflexivity|].
  apply (X14_confirm_released_by_same_run
           Sample.Marshal Sample.Unmarshal Sample.Sprintv Sample.Write_fails
           Sample.flusher (Sample.line Sample.s2) (Sample.line Sample.s1)
           Sample.s2 Sample.s1 "1" "" Sample.world0
           eq_refl eq_refl eq_refl eq_refl eq_refl eq_refl eq_refl eq_refl).
Defined.

Lemma X16_changing_runs_witness :
  Nat.ltb 0 (length [Sample.s2]) = true
  /\ changesRun Sample.Sprintv "1"
       (decoded Sample.Unmarshal [Sample.line Sample.s3; Sample.line Sample.s1])
     = true
  /\ exists lastRunID' w',
       Sample.streamEvents_loop
         [Sample.line Sample.s3; Sample.line Sample.s1] "1" [Sample.s2]
         Sample.world0
       = (lastRunID',
          [Sample.s2]
            ++ decoded Sample.Unmarshal
                 [Sample.line Sample.s3; Sample.line Sample.s1], w')
       /\ resp w' = resp Sample.world0.
Proof.
  split; [reflexivity|]. split; [reflexivity|].
  apply (X16_changing_runs_are_never_released
           Sample.Marshal Sample.Unmarshal Sample.Sprintv Sample.Write_fails
           Sample.flusher [Sample.line Sample.s3; Sample.line Sample.s1]
           "1" [Sample.s2] Sample.world0 eq_refl eq_refl).
Defined.

(** ** Events mode, step by step *)

Section EventsMode.

Variable Marshal : any -> result string.
Variable Unmarshal : list ascii -> result MapAny.
Variable Sprintv : any -> string.
Variable Quote : string -> string.
Variable Now : nat -> Z.
Variable Write_fails : list Call -> string -> bool.
Variable flusher : bool.

Local Abbreviation emit := (writeServerSentEvent Marshal Write_fails flusher).
Local Abbreviation finish :=
  (waitAndFinishStream Marshal Quote Now Write_fails flusher).
Local Abbreviation loop :=
  (streamEvents_loop Marshal Unmarshal Sprintv Write_fails flusher).
Local Abbreviation drain :=
  (streamEvents Marshal Unmarshal Sprintv Write_fails flusher).
Local Abbreviation send := (sendAll Marshal Write_fails flusher).
Local Abbreviation frame := (sse Marshal).
Local Abbreviation eventsModeAt :=
  (processEventStreamOutputAt Marshal Unmarshal Sprintv Quote Now
     Write_fails flusher).

Lemma writes_send (es : list MapAny) :
  forall w, writes (resp (send es w))
            = writes (resp w) ++ flat_map (fun e => frame (VMap e)) es.
Proof.
  unfold sendAll.
  induction es as [|e es IH]; intros w; simpl.
  - now rewrite app_nil_r.
  - rewrite IH, writes_emit, app_assoc. reflexivity.
Qed.

Lemma resp_drain_send (w : World) (events : list (list ascii)) :
  resp (drain w events)
  = resp (send (fst (reorder Sprintv (decoded Unmarshal events) "" [])) w).
Proof.
  unfold streamEvents.
  destruct (loop_reorder Marshal Unmarshal Sprintv Write_fails flusher
              events "" [] (log w DEBUG "receiving events" []))
    as [w' [Hl R]].
  rewrite Hl. simpl. rewrite R. now apply resp_send_ext.
Qed.


End EventsMode.

(** The instance for readers that do not change. *)
Lemma processEventStreamOutput_At
    (Marshal : any -> result string) (Unmarshal : list ascii -> result MapAny)
    (Sprintv : any -> string) (Quote : string -> string) (Now : nat -> Z)
    (Write_fails : list Call -> string -> bool) (flusher : bool)
    (w : World) (stdout stderr : Reader) (events : list (list ascii))
    (wait : World -> option error) :
  processEventStreamOutput Marshal Unmarshal Sprintv Quote Now Write_fails
    flusher w stdout stderr events wait
  = processEventStreamOutputAt Marshal Unmarshal Sprintv Quote Now
      Write_fails flusher w (fun _ => stdout) (fun _ => stderr) events wait.
Proof. reflexivity. Qed.


